(** * exodus-gw: link resolution of a publish ([exodus_gw/models/publish.py])

    A shallow embedding of the [Publish] and [Item] models, of
    [Publish.resolve_links], of the module constant [LINK_ISOLATION] and of
    the [before_update] listener [set_updated], followed by the properties
    of the link resolver.

    Conventions of the embedding.
    - A Python [str] is a [string], [Optional[str]] an [option string].
    - The session's identity map of [Item] objects is a [list Item.t]; an
      object reference is its position in that list, so that the attribute
      assignments of the resolver ([ln_item.object_key = ...]) are in-place
      updates [<[r := _]>] seen through every alias of the row.
    - A query yields its rows in the order of the list: the source has no
      ORDER BY, any order the store picks is an order of that list.
    - [datetime.utcnow()] is the clock value passed in as [utcnow].
    - [resolve_links] is the call on a session with nothing to flush;
      [session_resolve_links] is the call in a session that flushes
      before a query, where the items a former call assigned to are
      written, and stamped by [set_updated], when the first query runs. *)

From stdpp Require Import gmap strings list fin_maps.

Definition datetime := Z.

(** ** The models *)

Module Item.
Record t := mk {
  id : string;
  web_uri : string;
  object_key : option string;
  content_type : option string;
  link_to : option string;
  dirty : bool;
  updated : datetime;
  publish_id : string
}.

Definition set_object_key (v : option string) (it : t) : t :=
  mk (id it) (web_uri it) v (content_type it) (link_to it) (dirty it)
     (updated it) (publish_id it).

Definition set_content_type (v : option string) (it : t) : t :=
  mk (id it) (web_uri it) (object_key it) v (link_to it) (dirty it)
     (updated it) (publish_id it).

Definition set_updated (v : datetime) (it : t) : t :=
  mk (id it) (web_uri it) (object_key it) (content_type it) (link_to it)
     (dirty it) v (publish_id it).

#[global] Instance eq_dec : EqDecision t.
Proof. solve_decision. Defined.
End Item.

Module Publish.
Record t := mk {
  id : string;
  env : string;
  state : string;
  updated : option datetime
}.

Definition set_updated (v : option datetime) (p : t) : t :=
  mk (id p) (env p) (state p) v.

#[global] Instance eq_dec : EqDecision t.
Proof. solve_decision. Defined.
End Publish.

(** The objects a session holds: the rows of [publishes] and of [items]. *)
Record Session := mkSession {
  publishes : list Publish.t;
  items : list Item.t
}.

Definition with_items (rows : list Item.t) (db : Session) : Session :=
  mkSession (publishes db) rows.

(** ** Python values used by the resolver *)

(** Truth value of an [Optional[str]]: [None] and the empty string are
    false. *)
Definition truthy (o : option string) : bool :=
  match o with
  | Some s => negb (String.eqb s "")
  | None => false
  end.

(** SQL [coalesce(x, d)]. *)
Definition coalesce (o : option string) (d : string) : string := default d o.

(** [a or b] on an optional string and a string. *)
Definition py_or (a : option string) (b : string) : string :=
  match a with
  | Some s => if String.eqb s "" then b else s
  | None => b
  end.

(** ["%s" % x] for an optional string. *)
Definition str_of (o : option string) : string := default "None" o.

(** [fastapi.HTTPException]. *)
Record HTTPException := mkHTTPException {
  status_code : Z;
  detail : string
}.

#[global] Instance HTTPException_eq_dec : EqDecision HTTPException.
Proof. solve_decision. Defined.

(** How a call ends: it returns [None] or raises. *)
Inductive Outcome :=
  | Returned
  | Raised (e : HTTPException).

#[global] Instance Outcome_eq_dec : EqDecision Outcome.
Proof. solve_decision. Defined.

Definition nl_tab : string :=
  String (Ascii.ascii_of_nat 10) (String (Ascii.ascii_of_nat 9) "").

(** The [detail] of the exception of [resolve_links]:
    ["Unable to resolve item object_key:\n\tURI: '%s'\n\tLink: '%s'"]. *)
Definition unresolved_detail (uri : string) (link : option string) : string :=
  "Unable to resolve item object_key:" +:+ nl_tab +:+ "URI: '" +:+ uri
  +:+ "'" +:+ nl_tab +:+ "Link: '" +:+ str_of link +:+ "'".

Definition unresolved_link (ln_item : Item.t) : HTTPException :=
  mkHTTPException 400
    (unresolved_detail (Item.web_uri ln_item) (Item.link_to ln_item)).

(** ** [LINK_ISOLATION] *)

(** [(os.environ.get("EXODUS_GW_LINK_ISOLATION") or "1") == "1"] *)
Definition link_isolation_setting (environ : gmap string string) : bool :=
  String.eqb (py_or (environ !! "EXODUS_GW_LINK_ISOLATION") "1") "1".

(** ** [Publish.resolve_links] *)

(** The filter of the first query: [Item.publish_id == self.id] and
    [coalesce(Item.link_to, "") != ""]. *)
Definition linked_in (self_id : string) (it : Item.t) : Prop :=
  Item.publish_id it = self_id ∧ coalesce (Item.link_to it) "" ≠ "".

#[global] Instance linked_in_dec self_id it : Decision (linked_in self_id it).
Proof. unfold linked_in. apply _. Defined.

(** The row a reference points to satisfies [P]. *)
Definition row_sat (P : Item.t → Prop) (rows : list Item.t) (r : nat) : Prop :=
  match rows !! r with
  | Some it => P it
  | None => False
  end.

#[global] Instance row_sat_dec P `{∀ it, Decision (P it)} rows r :
  Decision (row_sat P rows r).
Proof. unfold row_sat. destruct (rows !! r); apply _. Defined.

(** [ln_items]: the objects of the rows that pass the filter, as
    references into the session. *)
Definition query_ln_items (self_id : string) (rows : list Item.t) : list nat :=
  filter (row_sat (linked_in self_id) rows) (seq 0 (length rows)).

(** [[item.link_to for item in ln_items]] *)
Definition ln_item_paths_of (rows : list Item.t) (ln_items : list nat)
  : list (option string) :=
  omap (λ r, Item.link_to <$> rows !! r) ln_items.

(** A row of the second query: the bundle
    [(web_uri, object_key, content_type)]. *)
Record Bundle := mkBundle {
  b_web_uri : string;
  b_object_key : option string;
  b_content_type : option string
}.

Definition bundle_of (it : Item.t) : Bundle :=
  mkBundle (Item.web_uri it) (Item.object_key it) (Item.content_type it).

(** The scope of the second query: the publish itself when
    [LINK_ISOLATION] is set, every publish otherwise. *)
Definition in_scope (LINK_ISOLATION : bool) (self_id : string)
    (it : Item.t) : Prop :=
  if LINK_ISOLATION then Item.publish_id it = self_id else True.

#[global] Instance in_scope_dec iso self_id it :
  Decision (in_scope iso self_id it).
Proof. unfold in_scope. destruct iso; apply _. Defined.

(** [db.query(match).filter(Item.web_uri.in_(ln_item_paths))], with
    [.filter(Item.publish_id == self.id)] added [if LINK_ISOLATION]. *)
Definition run_query (LINK_ISOLATION : bool) (self_id : string)
    (ln_item_paths : list (option string)) (rows : list Item.t)
  : list Bundle :=
  let query := filter (λ it, Some (Item.web_uri it) ∈ ln_item_paths) rows in
  let query :=
    if LINK_ISOLATION
    then filter (λ it, Item.publish_id it = self_id) query
    else query in
  bundle_of <$> query.

(** A value of [matches]: the dict with the keys ["object_key"] and
    ["content_type"]. *)
Record MatchDict := mkMatch {
  get_object_key : option string;
  get_content_type : option string
}.

#[global] Instance MatchDict_eq_dec : EqDecision MatchDict.
Proof. solve_decision. Defined.

(** The dict comprehension: a later row replaces an earlier one with the
    same [web_uri]. *)
Definition build_matches (query : list Bundle) : gmap string MatchDict :=
  foldl (λ m row,
           <[b_web_uri row := mkMatch (b_object_key row) (b_content_type row)]> m)
        ∅ query.

(** [matches.get(ln_item.link_to)] *)
Definition matches_get (matches : gmap string MatchDict)
    (key : option string) : option MatchDict :=
  key ≫= (λ k, matches !! k).

(** The condition of the [if] of the loop:
    [not match or not match.get("object_key") or
     not match.get("content_type")]. A dict with two keys is true. *)
Definition cannot_resolve (match_ : option MatchDict) : bool :=
  match match_ with
  | None => true
  | Some m => negb (truthy (get_object_key m))
              || negb (truthy (get_content_type m))
  end.

(** The two assignments that end the body of the loop. *)
Definition assign (m : option MatchDict) (ln_item : Item.t) : Item.t :=
  Item.set_content_type (m ≫= get_content_type)
    (Item.set_object_key (m ≫= get_object_key) ln_item).

(** [for ln_item in ln_items: ...], on the objects of the session. A raise
    leaves the loop with the assignments made so far in place. The
    references of [ln_items] come from the session, so the first branch of
    the lookup is never taken from [resolve_links]. *)
Fixpoint for_ln_items (matches : gmap string MatchDict)
    (ln_items : list nat) (rows : list Item.t) : list Item.t * Outcome :=
  match ln_items with
  | [] => (rows, Returned)
  | r :: ln_items' =>
      match rows !! r with
      | None => for_ln_items matches ln_items' rows
      | Some ln_item =>
          let match_ := matches_get matches (Item.link_to ln_item) in
          if cannot_resolve match_
          then (rows, Raised (unresolved_link ln_item))
          else for_ln_items matches ln_items' (<[r := assign match_ ln_item]> rows)
      end
  end.

(** [matches] as [resolve_links] computes it from the rows of the session. *)
Definition matches_of (LINK_ISOLATION : bool) (self_id : string)
    (rows : list Item.t) : gmap string MatchDict :=
  let ln_items := query_ln_items self_id rows in
  let ln_item_paths := ln_item_paths_of rows ln_items in
  build_matches (run_query LINK_ISOLATION self_id ln_item_paths rows).

Definition resolve_links (LINK_ISOLATION : bool) (self : Publish.t)
    (db : Session) : Session * Outcome :=
  let ln_items := query_ln_items (Publish.id self) (items db) in
  let matches := matches_of LINK_ISOLATION (Publish.id self) (items db) in
  let '(rows, out) := for_ln_items matches ln_items (items db) in
  (with_items rows db, out).

(** What the loop looks up for an item, and whether the item resolves. *)
Definition target (LINK_ISOLATION : bool) (self : Publish.t) (db : Session)
    (it : Item.t) : option MatchDict :=
  matches_get (matches_of LINK_ISOLATION (Publish.id self) (items db))
              (Item.link_to it).

Definition resolves (matches : gmap string MatchDict) (it : Item.t) : Prop :=
  cannot_resolve (matches_get matches (Item.link_to it)) = false.

#[global] Instance resolves_dec matches it : Decision (resolves matches it).
Proof. unfold resolves. apply _. Defined.

(** The item as the loop leaves it when it resolves. *)
Definition resolved_by (matches : gmap string MatchDict) (it : Item.t)
  : Item.t :=
  assign (matches_get matches (Item.link_to it)) it.

(** Every linked item of the publish has an entry with an object key and a
    content type. *)
Definition all_resolve (LINK_ISOLATION : bool) (self : Publish.t)
    (db : Session) : Prop :=
  Forall (λ it, linked_in (Publish.id self) it →
                resolves (matches_of LINK_ISOLATION (Publish.id self) (items db)) it)
         (items db).

#[global] Instance all_resolve_dec iso self db :
  Decision (all_resolve iso self db).
Proof. unfold all_resolve. apply _. Defined.

(** The same for the linked items whose [link_to] is not [u]. *)
Definition others_resolve (u : string) (LINK_ISOLATION : bool)
    (self : Publish.t) (db : Session) : Prop :=
  Forall (λ it, linked_in (Publish.id self) it →
                Item.link_to it ≠ Some u →
                resolves (matches_of LINK_ISOLATION (Publish.id self) (items db)) it)
         (items db).

#[global] Instance others_resolve_dec u iso self db :
  Decision (others_resolve u iso self db).
Proof. unfold others_resolve. apply _. Defined.

(** What a run that returns makes of a row. *)
Definition resolve_item (matches : gmap string MatchDict) (self_id : string)
    (it : Item.t) : Item.t :=
  if decide (linked_in self_id it) then resolved_by matches it else it.

(** The constraint [items_publish_id_web_uri_key] of the table. *)
Definition items_publish_id_web_uri_key (rows : list Item.t) : Prop :=
  NoDup ((λ it, (Item.publish_id it, Item.web_uri it)) <$> rows).

#[global] Instance items_publish_id_web_uri_key_dec rows :
  Decision (items_publish_id_web_uri_key rows).
Proof. unfold items_publish_id_web_uri_key. apply _. Defined.

(** The object a reference of [ln_items] points to resolves. *)
Definition row_resolves (matches : gmap string MatchDict)
    (rows : list Item.t) (r : nat) : Prop :=
  row_sat (resolves matches) rows r.

#[global] Instance row_resolves_dec matches rows r :
  Decision (row_resolves matches rows r).
Proof. unfold row_resolves. apply _. Defined.

(** ** The listener [set_updated] *)

(** [Union[Publish, Item]] *)
Inductive Entity :=
  | EPublish (p : Publish.t)
  | EItem (i : Item.t).

(** [entity.updated = datetime.utcnow()] *)
Definition set_updated (utcnow : datetime) (entity : Entity) : Entity :=
  match entity with
  | EPublish p => EPublish (Publish.set_updated (Some utcnow) p)
  | EItem i => EItem (Item.set_updated utcnow i)
  end.

Definition entity_updated (entity : Entity) : option datetime :=
  match entity with
  | EPublish p => Publish.updated p
  | EItem i => Some (Item.updated i)
  end.

(** The mapped classes and the mapper events of a flush: a row written for
    the first time is announced by [before_insert], a row written again by
    [before_update]. *)
Inductive Model := PublishModel | ItemModel.

Inductive MapperEvent := before_insert | before_update.

Definition model_of (entity : Entity) : Model :=
  match entity with
  | EPublish _ => PublishModel
  | EItem _ => ItemModel
  end.

(** The registry the two [@event.listens_for] decorators fill. *)
Definition listens_for (target_ : Model) (identifier : MapperEvent)
  : list (datetime → Entity → Entity) :=
  match target_, identifier with
  | PublishModel, before_update => [set_updated]
  | ItemModel, before_update => [set_updated]
  | _, before_insert => []
  end.

(** The mapper calls each listener of the event once on the instance it is
    about to write; what is written is the instance the listeners leave. *)
Definition persist (identifier : MapperEvent) (utcnow : datetime)
    (entity : Entity) : Entity :=
  foldl (λ e listener, listener utcnow e) entity
        (listens_for (model_of entity) identifier).

(** ** The process: environment, module constant, session *)

Record Process := mkProcess {
  environ : gmap string string;
  LINK_ISOLATION : bool;
  session : Session
}.

(** Loading the module evaluates the assignment of [LINK_ISOLATION]. *)
Definition import_module (env : gmap string string) (db : Session)
  : Process :=
  mkProcess env (link_isolation_setting env) db.

(** A later change of the environment of the process. *)
Inductive EnvChange :=
  | putenv (name value : string)
  | unsetenv (name : string).

Definition change_env (pr : Process) (c : EnvChange) : Process :=
  match c with
  | putenv name value =>
      mkProcess (<[name := value]> (environ pr)) (LINK_ISOLATION pr) (session pr)
  | unsetenv name =>
      mkProcess (delete name (environ pr)) (LINK_ISOLATION pr) (session pr)
  end.

(** A call of [self.resolve_links()] in the process: [if LINK_ISOLATION:]
    reads the module constant. *)
Definition call_resolve_links (self : Publish.t) (pr : Process)
  : Process * Outcome :=
  let '(db, out) := resolve_links (LINK_ISOLATION pr) self (session pr) in
  (mkProcess (environ pr) (LINK_ISOLATION pr) db, out).

(** ** The words of the properties *)

(** An optional string that is absent or empty. *)
Definition empty (o : option string) : Prop := coalesce o "" = "".

#[global] Instance empty_dec o : Decision (empty o).
Proof. unfold empty. apply _. Defined.

(** The lookup gave no entry, or an entry without object key or without
    content type. *)
Definition no_usable_entry (match_ : option MatchDict) : Prop :=
  match match_ with
  | None => True
  | Some m => empty (get_object_key m) ∨ empty (get_content_type m)
  end.

#[global] Instance no_usable_entry_dec match_ :
  Decision (no_usable_entry match_).
Proof. unfold no_usable_entry. destruct match_; apply _. Defined.

(** The items within the scope of the lookup that have a given URI. *)
Definition rows_in_scope_with (LINK_ISOLATION : bool) (self_id u : string)
    (rows : list Item.t) : list Item.t :=
  filter (λ it, in_scope LINK_ISOLATION self_id it ∧ Item.web_uri it = u) rows.

(** The item with the attributes of another one. *)
Definition with_attributes_of (A B : Item.t) : Item.t :=
  Item.set_content_type (Item.content_type A)
    (Item.set_object_key (Item.object_key A) B).

(** ** Sample data *)

Definition publish (id : string) : Publish.t :=
  Publish.mk id "live" "PENDING" None.

Definition item (publish_id web_uri : string)
    (object_key content_type link_to : option string) : Item.t :=
  Item.mk (publish_id +:+ web_uri) web_uri object_key content_type link_to
          true 0%Z publish_id.

(** [/a] with its attributes and [/b] linked to it. *)
Definition sample_basic : Session :=
  mkSession [publish "p"]
    [item "p" "/a" (Some "k1") (Some "t1") None;
     item "p" "/b" None None (Some "/a")].

(** The same, after an item whose link has no target. *)
Definition sample_missing : Session :=
  mkSession [publish "p"]
    [item "p" "/c" None None (Some "/missing");
     item "p" "/a" (Some "k1") (Some "t1") None;
     item "p" "/b" None None (Some "/a")].

(** [/a] in one publish, a link to it in another. *)
Definition sample_two_publishes : Session :=
  mkSession [publish "p1"; publish "p2"]
    [item "p1" "/a" (Some "k1") (Some "t1") None;
     item "p2" "/b" None None (Some "/a")].

(** A second publish holds its own [/a], written after the first. *)
Definition sample_shadowed : Session :=
  mkSession [publish "p"; publish "q"]
    [item "p" "/a" (Some "k1") (Some "t1") None;
     item "p" "/b" None None (Some "/a");
     item "q" "/a" (Some "k2") (Some "t2") None].

(** In the second publish two links, one of them without a target. *)
Definition sample_two_publishes_missing : Session :=
  mkSession [publish "p1"; publish "p2"]
    [item "p1" "/a" (Some "k1") (Some "t1") None;
     item "p2" "/b" None None (Some "/a");
     item "p2" "/d" None None (Some "/missing")].

(** The other publish has [/a], without attributes. *)
Definition sample_two_publishes_unresolved : Session :=
  mkSession [publish "p1"; publish "p2"]
    [item "p1" "/a" None None None;
     item "p2" "/b" None None (Some "/a")].

(** A third publish has an [/a] of its own, without attributes, written
    last. *)
Definition sample_three_publishes : Session :=
  mkSession [publish "p1"; publish "p2"; publish "p3"]
    [item "p1" "/a" (Some "k1") (Some "t1") None;
     item "p2" "/b" None None (Some "/a");
     item "p3" "/a" None None None].


(** A chain whose middle item has no attributes yet. *)
Definition sample_chain_unresolved : Session :=
  mkSession [publish "p"]
    [item "p" "/a" (Some "k1") (Some "t1") None;
     item "p" "/b" None None (Some "/a");
     item "p" "/c" None None (Some "/b")].

(** The same chain after an item whose link has no target. *)
Definition sample_chain_after_missing : Session :=
  mkSession [publish "p"]
    [item "p" "/d" None None (Some "/missing");
     item "p" "/a" (Some "k1") (Some "t1") None;
     item "p" "/b" None None (Some "/a");
     item "p" "/c" None None (Some "/b")].

(** The same chain, and a [/b] with attributes in another publish. *)
Definition sample_chain_shadowed : Session :=
  mkSession [publish "p"; publish "q"]
    [item "p" "/a" (Some "k1") (Some "t1") None;
     item "p" "/b" None None (Some "/a");
     item "p" "/c" None None (Some "/b");
     item "q" "/b" (Some "k2") (Some "t2") None].

(** ** The entry of a link, in terms of the table *)

(** The item a link is resolved against: the last one, in the order of
    the query, of the items within the scope whose URI is the [link_to]
    of the item. *)
Definition entry_row (LINK_ISOLATION : bool) (self : Publish.t)
    (db : Session) (it : Item.t) : option Item.t :=
  Item.link_to it ≫=
    λ u, last (rows_in_scope_with LINK_ISOLATION (Publish.id self) u (items db)).

(** No item within the scope has the URI of the link, or the one the link
    is resolved against has no object key or no content type. *)
Definition unresolved_in (LINK_ISOLATION : bool) (self : Publish.t)
    (db : Session) (it : Item.t) : Prop :=
  match entry_row LINK_ISOLATION self db it with
  | None => True
  | Some row => empty (Item.object_key row) ∨ empty (Item.content_type row)
  end.

#[global] Instance unresolved_in_dec iso self db it :
  Decision (unresolved_in iso self db it).
Proof. unfold unresolved_in. destruct (entry_row iso self db it); apply _. Defined.


(** ** The session between two flushes *)


(** An item as the flush writes it: an update, announced to the
    [before_update] listeners. *)
Definition stamp (utcnow : datetime) (it : Item.t) : Item.t :=
  match persist before_update utcnow (EItem it) with
  | EItem i => i
  | EPublish _ => it
  end.




(** ** The loop, row by row *)

(** The loop read as one pass over the rows of the session, in their
    order: a row the first query does not select is kept, a selected row
    that resolves is replaced, the first selected row that does not ends
    the pass. The loop over the references is shown to compute this. *)
Fixpoint resolve_rows (matches : gmap string MatchDict) (self_id : string)
    (rows : list Item.t) : list Item.t * Outcome :=
  match rows with
  | [] => ([], Returned)
  | it :: rows' =>
      if decide (linked_in self_id it) then
        if cannot_resolve (matches_get matches (Item.link_to it))
        then (it :: rows', Raised (unresolved_link it))
        else (resolved_by matches it :: (resolve_rows matches self_id rows').1,
              (resolve_rows matches self_id rows').2)
      else (it :: (resolve_rows matches self_id rows').1,
            (resolve_rows matches self_id rows').2)
  end.

(** The items of the publish, in the order of the table. *)
Definition own_items (self_id : string) (rows : list Item.t) : list Item.t :=
  filter (λ it, Item.publish_id it = self_id) rows.

(** A linked item of the publish without usable entry. *)
Definition blocks (LINK_ISOLATION : bool) (self : Publish.t) (db : Session)
    (it : Item.t) : Prop :=
  linked_in (Publish.id self) it ∧
  no_usable_entry (target LINK_ISOLATION self db it).

#[global] Instance blocks_dec iso self db it : Decision (blocks iso self db it).
Proof. unfold blocks. apply _. Defined.

(** Every URI a link of the publish names belongs, wherever it occurs in
    the table, to an item of the publish. *)
Definition no_foreign_targets (self_id : string) (rows : list Item.t) : Prop :=
  Forall (λ row,
            Forall (λ it, linked_in self_id it →
                          Item.link_to it = Some (Item.web_uri row) →
                          Item.publish_id row = self_id)
                   rows)
         rows.

#[global] Instance no_foreign_targets_dec self_id rows :
  Decision (no_foreign_targets self_id rows).
Proof. unfold no_foreign_targets. apply _. Defined.

(** Two items that agree on the columns other than [id], [dirty] and
    [updated]. *)
Definition same_content (it1 it2 : Item.t) : Prop :=
  Item.web_uri it1 = Item.web_uri it2 ∧
  Item.object_key it1 = Item.object_key it2 ∧
  Item.content_type it1 = Item.content_type it2 ∧
  Item.link_to it1 = Item.link_to it2 ∧
  Item.publish_id it1 = Item.publish_id it2.

#[global] Instance same_content_dec it1 it2 : Decision (same_content it1 it2).
Proof. unfold same_content. apply _. Defined.

(** [sample_basic] with other ids, flags and times. *)
Definition sample_basic_later : Session :=
  mkSession [publish "p"]
    [Item.mk "11" "/a" (Some "k1") (Some "t1") None false 5%Z "p";
     Item.mk "12" "/b" None None (Some "/a") true 9%Z "p"].

(** A link without target after a link that resolves. *)
Definition sample_missing_last : Session :=
  mkSession [publish "p"]
    [item "p" "/a" (Some "k1") (Some "t1") None;
     item "p" "/b" None None (Some "/a");
     item "p" "/c" None None (Some "/missing")].

(** An item linked to its own URI. *)
Definition sample_self_link : Session :=
  mkSession [publish "p"]
    [item "p" "/a" (Some "k1") (Some "t1") (Some "/a")].

(** Two items linked to each other. *)
Definition sample_mutual : Session :=
  mkSession [publish "p"]
    [item "p" "/a" (Some "k1") (Some "t1") (Some "/b");
     item "p" "/b" (Some "k2") (Some "t2") (Some "/a")].

(** Without links. *)
Definition sample_plain : Session :=
  mkSession [publish "p"]
    [item "p" "/a" (Some "k1") (Some "t1") None;
     item "p" "/b" None None None;
     item "p" "/c" (Some "k3") None (Some "")].

(** ** The selection of the linked items *)

Section ln_items.
Context (self_id : string) (rows : list Item.t).

Lemma elem_of_query_ln_items r :
  r ∈ query_ln_items self_id rows ↔
  ∃ it, rows !! r = Some it ∧ linked_in self_id it.
Proof.
  unfold query_ln_items. rewrite list_elem_of_filter, elem_of_seq.
  unfold row_sat. split.
  - intros [H _]. destruct (rows !! r) as [it|]; [eauto | done].
  - intros (it & Hr & Hl). rewrite Hr. split; [done |].
    apply lookup_lt_Some in Hr. lia.
Qed.

Lemma NoDup_query_ln_items : NoDup (query_ln_items self_id rows).
Proof. apply NoDup_filter, NoDup_seq. Qed.

Lemma query_ln_items_lookup r :
  r ∈ query_ln_items self_id rows → is_Some (rows !! r).
Proof. rewrite elem_of_query_ln_items. intros (it & -> & _). eauto. Qed.
End ln_items.

(** Fields the assignments of the loop leave alone. *)
Lemma assign_fields m it :
  Item.id (assign m it) = Item.id it ∧
  Item.web_uri (assign m it) = Item.web_uri it ∧
  Item.link_to (assign m it) = Item.link_to it ∧
  Item.dirty (assign m it) = Item.dirty it ∧
  Item.updated (assign m it) = Item.updated it ∧
  Item.publish_id (assign m it) = Item.publish_id it.
Proof. by destruct it. Qed.

Lemma assign_link_to m it : Item.link_to (assign m it) = Item.link_to it.
Proof. by destruct it. Qed.

Lemma resolved_by_idemp matches it :
  resolved_by matches (resolved_by matches it) = resolved_by matches it.
Proof. by destruct it. Qed.

Lemma resolved_by_linked_in matches self_id it :
  linked_in self_id (resolved_by matches it) ↔ linked_in self_id it.
Proof. by destruct it. Qed.

(** ** The loop *)

Section loop.
Context (matches : gmap string MatchDict).

Lemma row_resolves_insert rows r x it :
  r ≠ x → row_resolves matches (<[r := it]> rows) x ↔ row_resolves matches rows x.
Proof.
  intros Hne. unfold row_resolves, row_sat.
  by rewrite list_lookup_insert_ne.
Qed.

(** A run over items which all resolve: it returns, and it has replaced
    each of them by its resolved version. *)
Lemma for_ln_items_returns ln_items rows :
  NoDup ln_items →
  (∀ r, r ∈ ln_items → row_resolves matches rows r) →
  ∃ rows',
    for_ln_items matches ln_items rows = (rows', Returned) ∧
    length rows' = length rows ∧
    ∀ x, rows' !! x =
         if decide (x ∈ ln_items) then resolved_by matches <$> rows !! x
         else rows !! x.
Proof.
  revert rows. induction ln_items as [|r l IH]; intros rows Hnd Hall.
  { exists rows. split; [done |]. split; [done |]. intros x.
    by destruct (decide (x ∈ [])) as [?%elem_of_nil|]. }
  apply NoDup_cons in Hnd as [Hr Hnd].
  assert (Hrr : row_resolves matches rows r) by (apply Hall; left).
  unfold row_resolves, row_sat in Hrr. simpl.
  destruct (rows !! r) as [it|] eqn:Hit; [| done].
  unfold resolves in Hrr. rewrite Hrr.
  destruct (IH (<[r := assign (matches_get matches (Item.link_to it)) it]> rows))
    as (rows' & Hrun & Hlen & Hrows); [done | |].
  { intros x Hx. apply row_resolves_insert; [set_solver |].
    apply Hall. by right. }
  exists rows'. split; [done |]. split.
  { by rewrite Hlen, length_insert. }
  intros x. rewrite Hrows. destruct (decide (x = r)) as [->|Hne].
  - rewrite decide_False by done. rewrite decide_True by left.
    rewrite list_lookup_insert_eq by (by eapply lookup_lt_Some).
    by rewrite Hit.
  - rewrite list_lookup_insert_ne by done.
    destruct (decide (x ∈ l)).
    + by rewrite decide_True by (by right).
    + rewrite decide_False; [done |]. by intros [?|?]%elem_of_cons.
Qed.

(** A run that meets an item which does not resolve: it raises for that
    item, having replaced the items before it only. *)
Lemma for_ln_items_raises pre r post rows it :
  NoDup (pre ++ r :: post) →
  (∀ x, x ∈ pre → row_resolves matches rows x) →
  rows !! r = Some it →
  ¬ resolves matches it →
  ∃ rows',
    for_ln_items matches (pre ++ r :: post) rows
    = (rows', Raised (unresolved_link it)) ∧
    length rows' = length rows ∧
    ∀ x, rows' !! x =
         if decide (x ∈ pre) then resolved_by matches <$> rows !! x
         else rows !! x.
Proof.
  revert rows. induction pre as [|p pre IH]; intros rows Hnd Hall Hr Hno.
  { exists rows. simpl. rewrite Hr.
    unfold resolves in Hno. apply not_false_is_true in Hno. rewrite Hno.
    split; [done |]. split; [done |]. intros x.
    by destruct (decide (x ∈ [])) as [?%elem_of_nil|]. }
  simpl in Hnd. apply NoDup_cons in Hnd as [Hp Hnd].
  assert (Hpr : row_resolves matches rows p) by (apply Hall; left).
  unfold row_resolves, row_sat in Hpr. simpl.
  destruct (rows !! p) as [ip|] eqn:Hip; [| done].
  unfold resolves in Hpr. rewrite Hpr.
  assert (p ≠ r) as Hpr' by set_solver.
  destruct (IH (<[p := assign (matches_get matches (Item.link_to ip)) ip]> rows))
    as (rows' & Hrun & Hlen & Hrows); [done | | | done |].
  { intros x Hx. apply row_resolves_insert; [set_solver |].
    apply Hall. by right. }
  { by rewrite list_lookup_insert_ne. }
  exists rows'. split; [done |]. split.
  { by rewrite Hlen, length_insert. }
  intros x. rewrite Hrows. destruct (decide (x = p)) as [->|Hne].
  - rewrite decide_False by set_solver. rewrite decide_True by left.
    rewrite list_lookup_insert_eq by (by eapply lookup_lt_Some).
    by rewrite Hip.
  - rewrite list_lookup_insert_ne by done.
    destruct (decide (x ∈ pre)).
    + by rewrite decide_True by (by right).
    + rewrite decide_False; [done |]. by intros [?|?]%elem_of_cons.
Qed.

(** Either every item of the list resolves, or there is a first one that
    does not. *)
Lemma first_unresolved rows ln_items :
  (∀ r, r ∈ ln_items → row_resolves matches rows r) ∨
  ∃ pre r post,
    ln_items = pre ++ r :: post ∧
    (∀ x, x ∈ pre → row_resolves matches rows x) ∧
    ¬ row_resolves matches rows r.
Proof.
  induction ln_items as [|r l IH].
  { left. intros r Hr. by apply elem_of_nil in Hr. }
  destruct (decide (row_resolves matches rows r)) as [Hr|Hr].
  - destruct IH as [IH|(pre & r' & post & -> & Hpre & Hr')].
    + left. intros x [->|Hx]%elem_of_cons; auto.
    + right. exists (r :: pre), r', post. split; [done |]. split; [| done].
      intros x [->|Hx]%elem_of_cons; auto.
  - right. exists [], r, l. split; [done |]. split; [| done].
    intros x Hx. by apply elem_of_nil in Hx.
Qed.

(** Whatever the run does, a row is left as it was or resolved. *)
Lemma for_ln_items_rows ln_items rows :
  length (for_ln_items matches ln_items rows).1 = length rows ∧
  ∀ x it', (for_ln_items matches ln_items rows).1 !! x = Some it' →
    ∃ it, rows !! x = Some it ∧
          (it' = it ∨
           (x ∈ ln_items ∧ resolves matches it ∧ it' = resolved_by matches it)).
Proof.
  revert rows. induction ln_items as [|r l IH]; intros rows; simpl.
  { split; [done |]. intros x it' Hx. eauto. }
  destruct (rows !! r) as [it|] eqn:Hit.
  2:{ destruct (IH rows) as [Hlen Hrows]. split; [done |].
      intros x it' Hx. destruct (Hrows x it' Hx) as (it0 & H0 & [->|(?&?&?)]);
        exists it0; split; auto. right. split; [by right | done]. }
  destruct (cannot_resolve (matches_get matches (Item.link_to it))) eqn:Hc.
  { simpl. split; [done |]. eauto. }
  destruct (IH (<[r := assign (matches_get matches (Item.link_to it)) it]> rows))
    as [Hlen Hrows].
  split; [by rewrite Hlen, length_insert |].
  intros x it' Hx. destruct (Hrows x it' Hx) as (it0 & H0 & Hcase).
  destruct (decide (x = r)) as [->|Hne].
  - rewrite list_lookup_insert_eq in H0 by (by eapply lookup_lt_Some).
    injection H0 as <-. exists it. split; [done |]. right.
    split; [left |]. split; [done |].
    destruct Hcase as [->|(_ & _ & ->)]; [done |].
    apply resolved_by_idemp.
  - rewrite list_lookup_insert_ne in H0 by done.
    exists it0. split; [done |].
    destruct Hcase as [->|(?&?&?)]; [by left |]. right.
    split; [by right | done].
Qed.
End loop.

(** ** [resolve_links] as a whole *)

Section resolve_links.
Context (iso : bool) (self : Publish.t) (db : Session).

Let self_id := Publish.id self.
Let matches := matches_of iso self_id (items db).
Let ln_items := query_ln_items self_id (items db).

Lemma resolve_links_unfold :
  resolve_links iso self db =
  (with_items (for_ln_items matches ln_items (items db)).1 db,
   (for_ln_items matches ln_items (items db)).2).
Proof.
  unfold resolve_links. fold self_id. fold matches. fold ln_items.
  by destruct (for_ln_items matches ln_items (items db)).
Qed.

Lemma resolve_links_publishes :
  publishes (resolve_links iso self db).1 = publishes db.
Proof. by rewrite resolve_links_unfold. Qed.

Lemma resolve_links_length :
  length (items (resolve_links iso self db).1) = length (items db).
Proof.
  rewrite resolve_links_unfold. simpl. apply for_ln_items_rows.
Qed.

(** A row after the call is the row before it, or its resolved version
    if it is a linked item of the publish that resolves. *)
Lemma resolve_links_rows x it :
  items db !! x = Some it →
  ∃ it', items (resolve_links iso self db).1 !! x = Some it' ∧
    (it' = it ∨
     (linked_in self_id it ∧ resolves matches it ∧
      it' = resolved_by matches it)).
Proof.
  intros Hx. rewrite resolve_links_unfold. simpl.
  destruct (for_ln_items_rows matches ln_items (items db)) as [Hlen Hrows].
  destruct (lookup_lt_is_Some_2 (for_ln_items matches ln_items (items db)).1 x)
    as [it' Hit'].
  { rewrite Hlen. by eapply lookup_lt_Some. }
  exists it'. split; [done |].
  destruct (Hrows x it' Hit') as (it0 & H0 & Hcase).
  assert (it0 = it) as -> by congruence.
  destruct Hcase as [->|(Hin & Hres & ->)]; [by left |]. right.
  apply elem_of_query_ln_items in Hin as (it1 & H1 & Hl).
  assert (it1 = it) as -> by congruence. done.
Qed.

Lemma all_resolve_rows :
  all_resolve iso self db ↔ ∀ r, r ∈ ln_items → row_resolves matches (items db) r.
Proof.
  unfold all_resolve. rewrite Forall_forall. split.
  - intros Hall r (it & Hr & Hl)%elem_of_query_ln_items.
    unfold row_resolves, row_sat. rewrite Hr.
    apply Hall; [by eapply list_elem_of_lookup_2 | done].
  - intros Hall it [r Hr]%list_elem_of_lookup_1 Hl.
    specialize (Hall r). unfold row_resolves, row_sat in Hall.
    rewrite Hr in Hall. apply Hall, elem_of_query_ln_items. eauto.
Qed.

(** When every linked item resolves, the call returns and has resolved
    exactly the linked items of the publish. *)
Lemma resolve_links_returns :
  all_resolve iso self db →
  (resolve_links iso self db).2 = Returned ∧
  ∀ x it, items db !! x = Some it →
    items (resolve_links iso self db).1 !! x =
    Some (if decide (linked_in self_id it) then resolved_by matches it
          else it).
Proof.
  intros Hall. pose proof (proj1 all_resolve_rows Hall) as Hrs.
  destruct (for_ln_items_returns matches ln_items (items db))
    as (rows' & Hrun & _ & Hrows);
    [apply NoDup_query_ln_items | done |].
  rewrite resolve_links_unfold, Hrun. simpl. split; [done |].
  intros x it Hx. rewrite Hrows, Hx.
  destruct (decide (x ∈ ln_items)) as [Hin|Hin];
    destruct (decide (linked_in self_id it)) as [Hl|Hl]; try done.
  - apply elem_of_query_ln_items in Hin as (it1 & H1 & Hl1).
    by assert (it1 = it) as -> by congruence.
  - destruct Hin. apply elem_of_query_ln_items. eauto.
Qed.

(** When some linked item does not resolve, there is a first one in the
    order of the loop, and the call raises for it; only the linked items
    before it have been assigned to. *)
Lemma resolve_links_raises :
  ¬ all_resolve iso self db →
  ∃ pre r post ln_item,
    ln_items = pre ++ r :: post ∧
    (∀ x, x ∈ pre → row_resolves matches (items db) x) ∧
    items db !! r = Some ln_item ∧
    linked_in self_id ln_item ∧
    ¬ resolves matches ln_item ∧
    (resolve_links iso self db).2 = Raised (unresolved_link ln_item) ∧
    ∀ x, items (resolve_links iso self db).1 !! x =
         if decide (x ∈ pre) then resolved_by matches <$> items db !! x
         else items db !! x.
Proof.
  intros Hnot.
  destruct (first_unresolved matches (items db) ln_items)
    as [Hall|(pre & r & post & Hsplit & Hpre & Hr)].
  { destruct Hnot. by apply all_resolve_rows. }
  assert (r ∈ ln_items) as (it & Hit & Hl)%elem_of_query_ln_items.
  { rewrite Hsplit. set_solver. }
  unfold row_resolves, row_sat in Hr. rewrite Hit in Hr.
  destruct (for_ln_items_raises matches pre r post (items db) it)
    as (rows' & Hrun & _ & Hrows); [| done | done | done |].
  { rewrite <- Hsplit. apply NoDup_query_ln_items. }
  exists pre, r, post, it. rewrite resolve_links_unfold, Hsplit, Hrun.
  done.
Qed.
End resolve_links.

(** ** The mapping from URI to attributes *)

Section matches.
Let ins := λ (m : gmap string MatchDict) (row : Bundle),
  <[b_web_uri row := mkMatch (b_object_key row) (b_content_type row)]> m.

Lemma foldl_ins_other acc query u :
  (∀ b, b ∈ query → b_web_uri b ≠ u) →
  foldl ins acc query !! u = acc !! u.
Proof.
  revert acc. induction query as [|b q IH]; intros acc Hq; [done |].
  simpl. rewrite IH by (intros b' Hb'; apply Hq; by right).
  unfold ins. rewrite lookup_insert_ne; [done |]. apply Hq. left.
Qed.

Lemma build_matches_None query u :
  (∀ b, b ∈ query → b_web_uri b ≠ u) → build_matches query !! u = None.
Proof.
  intros Hq. unfold build_matches.
  rewrite (foldl_ins_other ∅ query u Hq). apply lookup_empty.
Qed.

(** Last writer wins. *)
Lemma build_matches_last q1 b q2 :
  (∀ b', b' ∈ q2 → b_web_uri b' ≠ b_web_uri b) →
  build_matches (q1 ++ b :: q2) !! b_web_uri b
  = Some (mkMatch (b_object_key b) (b_content_type b)).
Proof.
  intros Hq. unfold build_matches. rewrite foldl_app. simpl.
  rewrite (foldl_ins_other _ q2 (b_web_uri b) Hq).
  apply lookup_insert_eq.
Qed.

(** An entry of the mapping comes from a row of the query. *)
Lemma build_matches_Some query u m :
  build_matches query !! u = Some m →
  ∃ b, b ∈ query ∧ b_web_uri b = u ∧
       m = mkMatch (b_object_key b) (b_content_type b).
Proof.
  unfold build_matches. induction query as [|b q IH] using rev_ind.
  { simpl. by rewrite lookup_empty. }
  rewrite foldl_app. simpl.
  destruct (decide (b_web_uri b = u)) as [<-|Hne].
  - rewrite lookup_insert_eq. intros [= <-]. exists b.
    split; [| done]. apply elem_of_app. right. left.
  - rewrite lookup_insert_ne by done. intros (b' & ? & ? & ?)%IH.
    exists b'. split; [| done]. apply elem_of_app. by left.
Qed.
End matches.

Lemma run_query_filter iso self_id paths rows :
  run_query iso self_id paths rows =
  bundle_of <$> filter (λ it, in_scope iso self_id it ∧
                              Some (Item.web_uri it) ∈ paths) rows.
Proof.
  unfold run_query, in_scope. destruct iso.
  - by rewrite list_filter_filter.
  - f_equal. apply list_filter_iff. intros it. split; [by intros ? | by intros [_ ?]].
Qed.

Lemma elem_of_ln_item_paths self_id rows link :
  link ∈ ln_item_paths_of rows (query_ln_items self_id rows) ↔
  ∃ it, it ∈ rows ∧ linked_in self_id it ∧ Item.link_to it = link.
Proof.
  unfold ln_item_paths_of. rewrite list_elem_of_omap. split.
  - intros (r & (it & Hr & Hl)%elem_of_query_ln_items & Hlk).
    rewrite Hr in Hlk. injection Hlk as <-. exists it.
    split; [by eapply list_elem_of_lookup_2 | done].
  - intros (it & [r Hr]%list_elem_of_lookup_1 & Hl & <-). exists r.
    split; [| by rewrite Hr]. apply elem_of_query_ln_items. eauto.
Qed.

Section matches_of.
Context (iso : bool) (self_id : string) (rows : list Item.t).

Lemma run_query_None paths u :
  (∀ it, it ∈ rows → in_scope iso self_id it → Item.web_uri it ≠ u) →
  build_matches (run_query iso self_id paths rows) !! u = None.
Proof.
  intros Hno. rewrite run_query_filter. apply build_matches_None.
  intros b (it & -> & ((Hsc & _) & Hin)%list_elem_of_filter)%list_elem_of_fmap.
  simpl. by apply Hno.
Qed.

Lemma run_query_last paths a A :
  rows !! a = Some A →
  in_scope iso self_id A →
  Some (Item.web_uri A) ∈ paths →
  (∀ j it, rows !! j = Some it → in_scope iso self_id it →
           Item.web_uri it = Item.web_uri A → j ≤ a) →
  build_matches (run_query iso self_id paths rows) !! Item.web_uri A
  = Some (mkMatch (Item.object_key A) (Item.content_type A)).
Proof.
  intros Ha Hscope Hpath Hlast. rewrite run_query_filter.
  rewrite <- (take_drop_middle rows a A Ha).
  rewrite filter_app, filter_cons_True, fmap_app, fmap_cons by done.
  apply (build_matches_last _ (bundle_of A)).
  intros b (it & -> & ((Hsc & _) & Hin)%list_elem_of_filter)%list_elem_of_fmap.
  simpl. intros Hu.
  apply list_elem_of_lookup_1 in Hin as [j Hj].
  rewrite lookup_drop in Hj.
  specialize (Hlast _ _ Hj Hsc Hu). lia.
Qed.

(** No row in scope has the URI: the mapping has no entry for it. *)
Lemma matches_of_None u :
  (∀ it, it ∈ rows → in_scope iso self_id it → Item.web_uri it ≠ u) →
  matches_of iso self_id rows !! u = None.
Proof. apply run_query_None. Qed.

(** The entry of a URI some linked item points to is made of the last
    row in scope that has it. *)
Lemma matches_of_last a A :
  rows !! a = Some A →
  in_scope iso self_id A →
  (∃ it, it ∈ rows ∧ linked_in self_id it ∧
         Item.link_to it = Some (Item.web_uri A)) →
  (∀ j it, rows !! j = Some it → in_scope iso self_id it →
           Item.web_uri it = Item.web_uri A → j ≤ a) →
  matches_of iso self_id rows !! Item.web_uri A
  = Some (mkMatch (Item.object_key A) (Item.content_type A)).
Proof.
  intros Ha Hscope Hlinked Hlast. apply run_query_last with a; try done.
  by apply elem_of_ln_item_paths.
Qed.
End matches_of.

Lemma truthy_false o : truthy o = false ↔ empty o.
Proof.
  unfold empty. destruct o as [s|]; simpl; [| done].
  rewrite negb_false_iff. apply String.eqb_eq.
Qed.

Lemma cannot_resolve_true match_ :
  cannot_resolve match_ = true ↔ no_usable_entry match_.
Proof.
  destruct match_ as [m|]; simpl; [| done].
  rewrite orb_true_iff, !negb_true_iff, !truthy_false. done.
Qed.

Lemma not_resolves_iff matches it :
  ¬ resolves matches it ↔
  no_usable_entry (matches_get matches (Item.link_to it)).
Proof.
  unfold resolves. rewrite <- cannot_resolve_true.
  by destruct (cannot_resolve _).
Qed.

(** * Properties of the resolver *)

(** C6. An item whose [link_to] is absent or the empty string is not
    modified by [resolve_links]: after the call, whether it returned or
    raised, the row holds the same item, field by field. *)
Theorem item_without_link_never_modified iso self db r it :
  items db !! r = Some it →
  Item.link_to it = None ∨ Item.link_to it = Some "" →
  items (resolve_links iso self db).1 !! r = Some it.
Proof.
  intros Hr Hlink.
  destruct (resolve_links_rows iso self db r it Hr)
    as (it' & Hit' & [->|((_ & Hl) & _)]); [done |].
  destruct Hl. by destruct Hlink as [-> | ->].
Qed.

Lemma item_without_link_never_modified_witness :
  items (resolve_links true (publish "p") sample_missing).1 !! 1
  = Some (item "p" "/a" (Some "k1") (Some "t1") None).
Proof.
  apply (item_without_link_never_modified true (publish "p") sample_missing 1).
  - reflexivity.
  - left. reflexivity.
Defined.

(** C10. [resolve_links] modifies no publish, and of an item at most
    [object_key] and [content_type]: [id], [web_uri], [link_to], [dirty],
    [publish_id] and [updated] are as before the call; the listener
    [set_updated], run on the item when it is persisted, then changes
    [updated] and nothing else. *)
Theorem resolve_links_changes_only_object_key_and_content_type
    iso self db utcnow r it :
  items db !! r = Some it →
  publishes (resolve_links iso self db).1 = publishes db ∧
  ∃ it', items (resolve_links iso self db).1 !! r = Some it' ∧
    Item.id it' = Item.id it ∧
    Item.web_uri it' = Item.web_uri it ∧
    Item.link_to it' = Item.link_to it ∧
    Item.dirty it' = Item.dirty it ∧
    Item.publish_id it' = Item.publish_id it ∧
    Item.updated it' = Item.updated it ∧
    persist before_update utcnow (EItem it')
    = EItem (Item.mk (Item.id it) (Item.web_uri it) (Item.object_key it')
               (Item.content_type it') (Item.link_to it) (Item.dirty it)
               utcnow (Item.publish_id it)).
Proof.
  intros Hr. split; [apply resolve_links_publishes |].
  destruct (resolve_links_rows iso self db r it Hr)
    as (it' & Hit' & Hcase).
  exists it'. split; [done |].
  destruct Hcase as [->|(_ & _ & ->)]; by destruct it.
Qed.

Lemma resolve_links_changes_only_object_key_and_content_type_witness :
  publishes (resolve_links true (publish "p") sample_basic).1
  = [publish "p"] ∧
  ∃ it', items (resolve_links true (publish "p") sample_basic).1 !! 1
         = Some it' ∧
    Item.id it' = "p/b" ∧
    Item.web_uri it' = "/b" ∧
    Item.link_to it' = Some "/a" ∧
    Item.dirty it' = true ∧
    Item.publish_id it' = "p" ∧
    Item.updated it' = 0%Z ∧
    persist before_update 7%Z (EItem it')
    = EItem (Item.mk "p/b" "/b" (Item.object_key it') (Item.content_type it')
               (Some "/a") true 7%Z "p").
Proof.
  apply (resolve_links_changes_only_object_key_and_content_type
           true (publish "p") sample_basic 7%Z 1
           (item "p" "/b" None None (Some "/a"))).
  reflexivity.
Defined.

(** When some linked item has no usable entry in the mapping, the call
    raises for the first one in the order of the loop; that item, the
    linked items after it and every row but the linked items before it are
    left as they were. *)
Lemma raises_at_first_unusable_entry iso self db :
  (∃ it, it ∈ items db ∧ linked_in (Publish.id self) it ∧
         no_usable_entry (target iso self db it)) →
  ∃ pre r post ln_item,
    query_ln_items (Publish.id self) (items db) = pre ++ r :: post ∧
    items db !! r = Some ln_item ∧
    no_usable_entry (target iso self db ln_item) ∧
    (∀ x it, x ∈ pre → items db !! x = Some it →
             ¬ no_usable_entry (target iso self db it)) ∧
    (resolve_links iso self db).2
    = Raised (mkHTTPException 400
                (unresolved_detail (Item.web_uri ln_item)
                                   (Item.link_to ln_item))) ∧
    (∀ x, x ∈ r :: post →
          items (resolve_links iso self db).1 !! x = items db !! x) ∧
    (∀ x, x ∉ pre →
          items (resolve_links iso self db).1 !! x = items db !! x).
Proof.
  intros (it & Hin & Hl & Hno).
  destruct (resolve_links_raises iso self db)
    as (pre & r & post & ln_item & Hsplit & Hpre & Hr & _ & Hun & Hout & Hrows).
  { unfold all_resolve. rewrite Forall_forall. intros Hall.
    specialize (Hall it Hin Hl). by apply not_resolves_iff in Hno. }
  exists pre, r, post, ln_item. split; [done |]. split; [done |].
  split; [by apply not_resolves_iff |]. split.
  { intros x it0 Hx H0 Hno0. specialize (Hpre x Hx).
    unfold row_resolves, row_sat in Hpre. rewrite H0 in Hpre.
    by apply not_resolves_iff in Hno0. }
  split; [done |].
  assert (∀ x, x ∉ pre →
            items (resolve_links iso self db).1 !! x = items db !! x) as Hframe.
  { intros x Hx. rewrite Hrows. by rewrite decide_False. }
  split; [| done].
  intros x Hx. apply Hframe. intros Hx'.
  pose proof (NoDup_query_ln_items (Publish.id self) (items db)) as Hnd.
  rewrite Hsplit in Hnd. apply NoDup_app in Hnd as (_ & Hdisj & _).
  by apply (Hdisj x).
Qed.

(** C7. When a [Publish] or an [Item] is persisted as an update, its
    [updated] is the current time, whatever value it held and whatever the
    other fields are; the listener is the only one of the event and runs
    once, so that nothing else of the entity changes; it is the same
    listener for both models, and an insert runs no listener. *)
Theorem set_updated_on_every_update utcnow entity :
  listens_for (model_of entity) before_update = [set_updated] ∧
  entity_updated (persist before_update utcnow entity) = Some utcnow ∧
  persist before_update utcnow entity
  = match entity with
    | EPublish p =>
        EPublish (Publish.mk (Publish.id p) (Publish.env p) (Publish.state p)
                             (Some utcnow))
    | EItem i =>
        EItem (Item.mk (Item.id i) (Item.web_uri i) (Item.object_key i)
                       (Item.content_type i) (Item.link_to i) (Item.dirty i)
                       utcnow (Item.publish_id i))
    end ∧
  persist before_insert utcnow entity = entity.
Proof. by destruct entity. Qed.

(** C8. When the environment variable [EXODUS_GW_LINK_ISOLATION] is absent
    or empty, the module constant [LINK_ISOLATION] is true: resolution is
    isolated by default. *)
Theorem link_isolation_default env db self :
  env !! "EXODUS_GW_LINK_ISOLATION" = None ∨
  env !! "EXODUS_GW_LINK_ISOLATION" = Some "" →
  LINK_ISOLATION (import_module env db) = true ∧
  (call_resolve_links self (import_module env db)).2
  = (resolve_links true self db).2 ∧
  session (call_resolve_links self (import_module env db)).1
  = (resolve_links true self db).1.
Proof.
  intros Hunset.
  assert (link_isolation_setting env = true) as Hiso.
  { unfold link_isolation_setting. by destruct Hunset as [-> | ->]. }
  unfold call_resolve_links. simpl. rewrite Hiso.
  by destruct (resolve_links true self db).
Qed.

Lemma link_isolation_default_witness :
  LINK_ISOLATION (import_module ∅ sample_two_publishes) = true ∧
  (call_resolve_links (publish "p2") (import_module ∅ sample_two_publishes)).2
  = (resolve_links true (publish "p2") sample_two_publishes).2 ∧
  session (call_resolve_links (publish "p2")
             (import_module ∅ sample_two_publishes)).1
  = (resolve_links true (publish "p2") sample_two_publishes).1.
Proof.
  apply (link_isolation_default ∅ sample_two_publishes (publish "p2")).
  left. reflexivity.
Defined.

(** C4, as stated, fails. The module is loaded when the variable is unset,
    so [LINK_ISOLATION] is true; the variable is then set to ["0"], so the
    configuration now asks for the global scope. The call made before the
    change and the call made after it both raise: the second call still
    uses the isolated scope, where a call with the scope of the current
    configuration returns. *)
Lemma link_isolation_not_read_at_call :
  let P2 := publish "p2" in
  let B := item "p2" "/b" None None (Some "/a") in
  let before := import_module ∅ sample_two_publishes in
  let after := change_env before (putenv "EXODUS_GW_LINK_ISOLATION" "0") in
  link_isolation_setting (environ before) = true ∧
  link_isolation_setting (environ after) = false ∧
  (call_resolve_links P2 before).2 = Raised (unresolved_link B) ∧
  (call_resolve_links P2 after).2 = Raised (unresolved_link B) ∧
  (resolve_links (link_isolation_setting (environ after)) P2 (session after)).2
  = Returned.
Proof. vm_compute. done. Qed.

Lemma change_env_keeps changes pr :
  LINK_ISOLATION (foldl change_env pr changes) = LINK_ISOLATION pr ∧
  session (foldl change_env pr changes) = session pr.
Proof.
  revert pr. induction changes as [|c changes IH]; intros pr; [done |].
  simpl. destruct (IH (change_env pr c)) as [-> ->]. by destruct c.
Qed.

(** C4, amended. [LINK_ISOLATION] is computed from the environment once,
    when the module is loaded. A call of [resolve_links] reads the module
    constant: whatever changes the environment of the process went through
    since the load, the call behaves as the setting read at load time
    says, and leaves the constant as it is. *)
Theorem link_isolation_read_at_import env db changes self :
  let pr := foldl change_env (import_module env db) changes in
  LINK_ISOLATION pr = link_isolation_setting env ∧
  (call_resolve_links self pr).2
  = (resolve_links (link_isolation_setting env) self db).2 ∧
  session (call_resolve_links self pr).1
  = (resolve_links (link_isolation_setting env) self db).1 ∧
  LINK_ISOLATION (call_resolve_links self pr).1 = link_isolation_setting env.
Proof.
  intros pr. unfold call_resolve_links.
  destruct (change_env_keeps changes (import_module env db)) as [Hiso Hdb].
  fold pr in Hiso, Hdb. rewrite Hiso, Hdb. simpl.
  by destruct (resolve_links (link_isolation_setting env) self db).
Qed.

(** ** A single item in scope *)

Lemma build_matches_is_Some query b :
  b ∈ query → is_Some (build_matches query !! b_web_uri b).
Proof.
  unfold build_matches. induction query as [|b' q IH] using rev_ind.
  { by intros ?%elem_of_nil. }
  rewrite foldl_app. simpl. intros [Hb|Hb]%elem_of_app.
  - destruct (decide (b_web_uri b' = b_web_uri b)) as [->|Hne].
    + rewrite lookup_insert_eq. eauto.
    + rewrite lookup_insert_ne by done. by apply IH.
  - apply list_elem_of_singleton in Hb as ->.
    rewrite lookup_insert_eq. eauto.
Qed.

(** When one item only is in scope with the URI some linked item points
    to, the entry of that URI holds the attributes of that item. *)
Lemma matches_of_only iso self_id rows A :
  (∃ it, it ∈ rows ∧ linked_in self_id it ∧
         Item.link_to it = Some (Item.web_uri A)) →
  rows_in_scope_with iso self_id (Item.web_uri A) rows = [A] →
  matches_of iso self_id rows !! Item.web_uri A
  = Some (mkMatch (Item.object_key A) (Item.content_type A)).
Proof.
  intros Hlinked%elem_of_ln_item_paths Honly. unfold matches_of.
  assert (A ∈ rows_in_scope_with iso self_id (Item.web_uri A) rows)
    as ((Hsc & _) & HA)%list_elem_of_filter by (rewrite Honly; left).
  set (query := run_query _ _ _ _) in *.
  assert (bundle_of A ∈ query) as HbA.
  { unfold query. rewrite run_query_filter. apply list_elem_of_fmap_2.
    by apply list_elem_of_filter. }
  destruct (build_matches_is_Some query (bundle_of A) HbA) as [m Hm].
  simpl in Hm. rewrite Hm.
  apply build_matches_Some in Hm as (b & Hb & Hu & ->).
  unfold query in Hb. rewrite run_query_filter in Hb.
  apply list_elem_of_fmap in Hb as (it & -> & ((Hsc' & _) & Hit)%list_elem_of_filter).
  simpl in Hu.
  assert (it ∈ rows_in_scope_with iso self_id (Item.web_uri A) rows) as Hin.
  { by apply list_elem_of_filter. }
  rewrite Honly in Hin. by apply list_elem_of_singleton in Hin as ->.
Qed.

Lemma filter_none {A} (P : A → Prop) `{∀ x, Decision (P x)} (l : list A) :
  (∀ x, x ∈ l → ¬ P x) → filter P l = [].
Proof.
  induction l as [|x l IH]; intros Hl; [done |].
  rewrite filter_cons_False by (apply Hl; left).
  apply IH. intros y Hy. apply Hl. by right.
Qed.

(** Under the constraint of the table, an item of the publish is the only
    one of the publish with its URI. *)
Lemma only_in_publish rows A :
  items_publish_id_web_uri_key rows →
  A ∈ rows →
  rows_in_scope_with true (Item.publish_id A) (Item.web_uri A) rows = [A].
Proof.
  unfold items_publish_id_web_uri_key, rows_in_scope_with, in_scope.
  induction rows as [|it rows IH]; [by intros _ ?%elem_of_nil |].
  rewrite fmap_cons. intros [Hit Hnd]%NoDup_cons [->|HA]%elem_of_cons.
  - rewrite filter_cons_True by done. f_equal.
    apply filter_none. intros it' Hin [Hp Hu].
    destruct Hit. rewrite <- Hp, <- Hu.
    by apply (list_elem_of_fmap_2 (λ it, (Item.publish_id it, Item.web_uri it))).
  - rewrite filter_cons_False; [by apply IH |].
    intros [Hp Hu]. destruct Hit. rewrite Hp, Hu.
    by apply (list_elem_of_fmap_2 (λ it, (Item.publish_id it, Item.web_uri it))).
Qed.

Lemma target_of_only iso self db A it :
  it ∈ items db →
  linked_in (Publish.id self) it →
  Item.link_to it = Some (Item.web_uri A) →
  rows_in_scope_with iso (Publish.id self) (Item.web_uri A) (items db) = [A] →
  target iso self db it
  = Some (mkMatch (Item.object_key A) (Item.content_type A)).
Proof.
  intros Hin Hl Hlink Honly. unfold target. rewrite Hlink. simpl.
  apply matches_of_only; [| done]. eauto.
Qed.

Lemma resolves_attributes matches it A :
  matches_get matches (Item.link_to it)
  = Some (mkMatch (Item.object_key A) (Item.content_type A)) →
  ¬ empty (Item.object_key A) →
  ¬ empty (Item.content_type A) →
  resolves matches it.
Proof.
  intros Hm Hk Ht. unfold resolves. rewrite Hm. simpl.
  rewrite <- truthy_false in Hk, Ht.
  apply not_false_is_true in Hk, Ht. by rewrite Hk, Ht.
Qed.

(** When the items linked to the URI of [A] find the attributes of [A],
    it is enough that the other linked items resolve. *)
Lemma others_resolve_all iso self db A :
  rows_in_scope_with iso (Publish.id self) (Item.web_uri A) (items db) = [A] →
  ¬ empty (Item.object_key A) →
  ¬ empty (Item.content_type A) →
  others_resolve (Item.web_uri A) iso self db →
  all_resolve iso self db.
Proof.
  unfold others_resolve, all_resolve. rewrite !Forall_forall.
  intros Honly Hk Ht Hothers it Hin Hl.
  destruct (decide (Item.link_to it = Some (Item.web_uri A))) as [Hlink|Hlink];
    [| by apply Hothers].
  apply (resolves_attributes _ it A); [| done | done].
  by apply (target_of_only iso self db A it).
Qed.

(** The entry looked up for a linked item is absent exactly when no item
    in scope has the URI of the link; when present, it holds the
    attributes of an item in scope that has that URI. *)
Lemma target_None_iff iso self db it :
  it ∈ items db →
  linked_in (Publish.id self) it →
  target iso self db it = None ↔
  ∀ row, row ∈ items db → in_scope iso (Publish.id self) row →
         Item.link_to it ≠ Some (Item.web_uri row).
Proof.
  intros Hin Hl. unfold target. split.
  - intros Hnone row Hrow Hsc Hlink. rewrite Hlink in Hnone. simpl in Hnone.
    unfold matches_of in Hnone.
    destruct (build_matches_is_Some
                (run_query iso (Publish.id self)
                   (ln_item_paths_of (items db)
                      (query_ln_items (Publish.id self) (items db)))
                   (items db))
                (bundle_of row)) as [m Hm]; [| simpl in Hm; congruence].
    rewrite run_query_filter. apply list_elem_of_fmap_2, list_elem_of_filter.
    split; [| done]. split; [done |]. apply elem_of_ln_item_paths. eauto.
  - intros Hno. destruct (Item.link_to it) as [u|]; [| done]. simpl.
    apply matches_of_None. intros row Hrow Hsc Hu.
    apply (Hno row); [done | done | by rewrite Hu].
Qed.

Lemma target_Some iso self db it m :
  target iso self db it = Some m →
  ∃ row, row ∈ items db ∧ in_scope iso (Publish.id self) row ∧
         Item.link_to it = Some (Item.web_uri row) ∧
         m = mkMatch (Item.object_key row) (Item.content_type row).
Proof.
  unfold target. destruct (Item.link_to it) as [u|]; [| done]. simpl.
  unfold matches_of. rewrite run_query_filter.
  intros (b & Hb & <- & ->)%build_matches_Some.
  apply list_elem_of_fmap in Hb
    as (row & -> & ((Hsc & _) & Hrow)%list_elem_of_filter).
  exists row. done.
Qed.

(** The run when [A] is the only item in scope with its URI and has its
    attributes, and the other linked items resolve. *)
Lemma linked_items_resolve iso self db A b B :
  rows_in_scope_with iso (Publish.id self) (Item.web_uri A) (items db) = [A] →
  ¬ empty (Item.object_key A) →
  ¬ empty (Item.content_type A) →
  items db !! b = Some B →
  linked_in (Publish.id self) B →
  Item.link_to B = Some (Item.web_uri A) →
  others_resolve (Item.web_uri A) iso self db →
  (resolve_links iso self db).2 = Returned ∧
  items (resolve_links iso self db).1 !! b = Some (with_attributes_of A B) ∧
  all_resolve iso self db.
Proof.
  intros Honly HkA HtA Hb HlB Hlink Hothers.
  assert (all_resolve iso self db) as Hall.
  { by apply (others_resolve_all iso self db A). }
  destruct (resolve_links_returns iso self db Hall) as [Hout Hrows].
  split; [done |]. split; [| done].
  rewrite (Hrows b B Hb), decide_True by done. f_equal.
  unfold resolved_by. fold (target iso self db B).
  rewrite (target_of_only iso self db A B); try done.
  by eapply list_elem_of_lookup_2.
Qed.

(** C1, as stated, fails. First sample, isolated scope: the publish holds
    [/a] with its attributes and [/b] linked to it, and also [/c] whose
    link has no target; the call raises for [/c] and [/b] is left without
    object key. Second sample, global scope: another publish holds an [/a]
    of its own, which the mapping retains; the call returns and [/b] has
    the attributes of that other [/a]. *)
Lemma basic_resolution_needs_more :
  (resolve_links true (publish "p") sample_missing).2
  = Raised (unresolved_link (item "p" "/c" None None (Some "/missing"))) ∧
  items (resolve_links true (publish "p") sample_missing).1 !! 2
  = Some (item "p" "/b" None None (Some "/a")) ∧
  (resolve_links false (publish "p") sample_shadowed).2 = Returned ∧
  items (resolve_links false (publish "p") sample_shadowed).1 !! 1
  = Some (item "p" "/b" (Some "k2") (Some "t2") (Some "/a")).
Proof. vm_compute. done. Qed.

(** C1, amended. Let [A] be the only item within the scope of the lookup
    that has its URI (in isolated mode the constraint of the table makes
    it so for an item of the publish), with an object key and a content
    type, let [B] be a linked item of the publish with [link_to] the URI
    of [A], and let every other linked item of the publish have a usable
    entry. Then [resolve_links] returns normally, [B] ends with the object
    key and the content type of [A], and every linked item of the publish
    ends with the object key and the content type, both non-empty, of the
    entry the call looked up for its [link_to]. *)
Theorem linked_items_take_attributes_of_targets iso self db A b B :
  rows_in_scope_with iso (Publish.id self) (Item.web_uri A) (items db) = [A] →
  ¬ empty (Item.object_key A) →
  ¬ empty (Item.content_type A) →
  items db !! b = Some B →
  linked_in (Publish.id self) B →
  Item.link_to B = Some (Item.web_uri A) →
  others_resolve (Item.web_uri A) iso self db →
  (resolve_links iso self db).2 = Returned ∧
  items (resolve_links iso self db).1 !! b = Some (with_attributes_of A B) ∧
  ∀ r it, items db !! r = Some it → linked_in (Publish.id self) it →
    ∃ m, target iso self db it = Some m ∧
         ¬ empty (get_object_key m) ∧ ¬ empty (get_content_type m) ∧
         items (resolve_links iso self db).1 !! r
         = Some (Item.set_content_type (get_content_type m)
                   (Item.set_object_key (get_object_key m) it)).
Proof.
  intros Honly HkA HtA Hb HlB Hlink Hothers.
  destruct (linked_items_resolve iso self db A b B) as (Hout & HB & Hall);
    try done.
  destruct (resolve_links_returns iso self db Hall) as [_ Hrows].
  split; [done |]. split; [done |].
  - intros r it Hr Hl. rewrite (Hrows r it Hr), decide_True by done.
    unfold all_resolve in Hall. rewrite Forall_forall in Hall.
    specialize (Hall it (list_elem_of_lookup_2 _ _ _ Hr) Hl).
    unfold resolved_by. fold (target iso self db it).
    unfold resolves in Hall. fold (target iso self db it) in Hall.
    destruct (target iso self db it) as [m|]; [| done].
    exists m. split; [done |]. simpl in Hall.
    apply orb_false_iff in Hall as [Hk Ht].
    apply negb_false_iff in Hk, Ht.
    split; [| split; [| done]]; rewrite <- truthy_false; congruence.
Qed.

Lemma linked_items_take_attributes_of_targets_witness :
  let A := item "p" "/a" (Some "k1") (Some "t1") None in
  let B := item "p" "/b" None None (Some "/a") in
  (resolve_links true (publish "p") sample_basic).2 = Returned ∧
  items (resolve_links true (publish "p") sample_basic).1 !! 1
  = Some (with_attributes_of A B) ∧
  ∀ r it, items sample_basic !! r = Some it → linked_in "p" it →
    ∃ m, target true (publish "p") sample_basic it = Some m ∧
         ¬ empty (get_object_key m) ∧ ¬ empty (get_content_type m) ∧
         items (resolve_links true (publish "p") sample_basic).1 !! r
         = Some (Item.set_content_type (get_content_type m)
                   (Item.set_object_key (get_object_key m) it)).
Proof.
  intros A B.
  apply (linked_items_take_attributes_of_targets
           true (publish "p") sample_basic A 1 B).
  - reflexivity.
  - vm_compute. discriminate.
  - vm_compute. discriminate.
  - reflexivity.
  - split; [reflexivity | vm_compute; discriminate].
  - reflexivity.
  - apply (bool_decide_unpack _). vm_compute. exact I.
Defined.

(** C3, as stated, fails in its second half. Global scope, the other
    publish owns [/a], the publish owns [/b] linked to [/a] and no [/a]:
    the call raises when the publish owns a second link without target
    (first sample), when [/a] has no attributes (second sample), and when
    a third publish owns an [/a] without attributes that the mapping
    retains (third sample). *)
Lemma global_scope_may_raise :
  (resolve_links false (publish "p2") sample_two_publishes_missing).2
  = Raised (unresolved_link (item "p2" "/d" None None (Some "/missing"))) ∧
  (resolve_links false (publish "p2") sample_two_publishes_unresolved).2
  = Raised (unresolved_link (item "p2" "/b" None None (Some "/a"))) ∧
  (resolve_links false (publish "p2") sample_three_publishes).2
  = Raised (unresolved_link (item "p2" "/b" None None (Some "/a"))).
Proof. vm_compute. done. Qed.

(** C3, amended. Let the publish own a linked item [B] with [link_to] a
    URI [u] that no item of the publish has. With isolated mode on, the
    lookup of [B] finds no entry and [resolve_links] raises, whatever the
    other publishes hold. With isolated mode off, when one item [A] only
    of the store has the URI [u], with an object key and a content type,
    and the other linked items of the publish resolve in the global
    scope, the same call returns and [B] has the object key and the
    content type of [A]. *)
Theorem isolation_confines_lookup_to_publish self db b B u :
  items db !! b = Some B →
  linked_in (Publish.id self) B →
  Item.link_to B = Some u →
  rows_in_scope_with true (Publish.id self) u (items db) = [] →
  (target true self db B = None ∧
   ∃ ln_item, linked_in (Publish.id self) ln_item ∧
     no_usable_entry (target true self db ln_item) ∧
     (resolve_links true self db).2 = Raised (unresolved_link ln_item)) ∧
  (∀ A,
     rows_in_scope_with false (Publish.id self) u (items db) = [A] →
     ¬ empty (Item.object_key A) →
     ¬ empty (Item.content_type A) →
     others_resolve u false self db →
     Item.publish_id A ≠ Publish.id self ∧
     (resolve_links false self db).2 = Returned ∧
     items (resolve_links false self db).1 !! b
     = Some (with_attributes_of A B)).
Proof.
  intros Hb HlB Hlink Hlocal.
  assert (∀ it, it ∈ items db → Item.publish_id it = Publish.id self →
                Item.web_uri it ≠ u) as Hno.
  { intros it Hin Hp Hu. unfold rows_in_scope_with in Hlocal.
    by destruct (filter_nil_not_elem_of _ _ it Hlocal). }
  assert (target true self db B = None) as Hnone.
  { unfold target. rewrite Hlink. simpl. apply matches_of_None.
    intros it Hin Hsc. by apply Hno. }
  split.
  - split; [done |].
    destruct (resolve_links_raises true self db)
      as (pre & r & post & ln_item & _ & _ & _ & Hl & Hun & Hout & _).
    { unfold all_resolve. rewrite Forall_forall. intros Hall.
      specialize (Hall B (list_elem_of_lookup_2 _ _ _ Hb) HlB).
      unfold resolves in Hall. fold (target true self db B) in Hall.
      by rewrite Hnone in Hall. }
    exists ln_item. split; [done |]. split; [| done].
    by apply not_resolves_iff.
  - intros A Honly HkA HtA Hothers.
    assert (A ∈ rows_in_scope_with false (Publish.id self) u (items db))
      as ((_ & Hu) & HinA)%list_elem_of_filter by (rewrite Honly; left).
    subst u. split.
    + intros Hp. by apply (Hno A).
    + destruct (linked_items_resolve false self db A b B) as (? & ? & _); done.
Qed.

Lemma isolation_confines_lookup_to_publish_witness :
  let A := item "p1" "/a" (Some "k1") (Some "t1") None in
  let B := item "p2" "/b" None None (Some "/a") in
  ((target true (publish "p2") sample_two_publishes B = None ∧
    ∃ ln_item, linked_in "p2" ln_item ∧
      no_usable_entry (target true (publish "p2") sample_two_publishes ln_item) ∧
      (resolve_links true (publish "p2") sample_two_publishes).2
      = Raised (unresolved_link ln_item)) ∧
   (resolve_links false (publish "p2") sample_two_publishes).2 = Returned ∧
   items (resolve_links false (publish "p2") sample_two_publishes).1 !! 1
   = Some (with_attributes_of A B)) ∧
  (target true (publish "p2") sample_three_publishes B = None ∧
   ∃ ln_item, linked_in "p2" ln_item ∧
     no_usable_entry (target true (publish "p2") sample_three_publishes ln_item) ∧
     (resolve_links true (publish "p2") sample_three_publishes).2
     = Raised (unresolved_link ln_item)).
Proof.
  intros A B. split.
  - destruct (isolation_confines_lookup_to_publish
                (publish "p2") sample_two_publishes 1 B "/a")
      as [Hon Hoff].
    + reflexivity.
    + split; [reflexivity | vm_compute; discriminate].
    + reflexivity.
    + reflexivity.
    + split; [exact Hon |]. apply (Hoff A).
      * reflexivity.
      * vm_compute. discriminate.
      * vm_compute. discriminate.
      * apply (bool_decide_unpack _). vm_compute. exact I.
  - apply (isolation_confines_lookup_to_publish
             (publish "p2") sample_three_publishes 1 B "/a").
    + reflexivity.
    + split; [reflexivity | vm_compute; discriminate].
    + reflexivity.
    + reflexivity.
Defined.

(** C9, as stated, fails. In both samples the publish holds [/c] linked to
    [/b] and [/b] without attributes, itself linked to [/a]. First
    sample, isolated scope: a link without target comes first in the loop,
    and the exception is the one of that item, not of [/c]. Second sample,
    global scope: another publish holds a [/b] with attributes, which the
    mapping retains; the call returns and [/c] has those attributes. *)
Lemma chained_link_error_may_differ :
  (resolve_links true (publish "p") sample_chain_after_missing).2
  = Raised (unresolved_link (item "p" "/d" None None (Some "/missing"))) ∧
  (resolve_links false (publish "p") sample_chain_shadowed).2 = Returned ∧
  items (resolve_links false (publish "p") sample_chain_shadowed).1 !! 2
  = Some (item "p" "/c" (Some "k2") (Some "t2") (Some "/b")).
Proof. vm_compute. done. Qed.

(** C9, amended. Let [B] be the only item within the scope of the lookup
    that has its URI, without object key or without content type at the
    start of the call; let [C] be a linked item of the publish with
    [link_to] the URI of [B], and let the linked items that come before
    [C] in the loop resolve. Then [resolve_links] raises the exception of
    [C] and leaves [C] as it was, although the items before [C], [B]
    among them if it is linked and comes first, have been resolved by
    this call: the mapping is the one built before the loop. *)
Theorem chained_link_is_not_resolved iso self db B c C pre post :
  rows_in_scope_with iso (Publish.id self) (Item.web_uri B) (items db) = [B] →
  empty (Item.object_key B) ∨ empty (Item.content_type B) →
  items db !! c = Some C →
  linked_in (Publish.id self) C →
  Item.link_to C = Some (Item.web_uri B) →
  query_ln_items (Publish.id self) (items db) = pre ++ c :: post →
  Forall (row_resolves (matches_of iso (Publish.id self) (items db)) (items db))
         pre →
  (resolve_links iso self db).2 = Raised (unresolved_link C) ∧
  items (resolve_links iso self db).1 !! c = Some C ∧
  ∀ x, x ∈ pre →
    items (resolve_links iso self db).1 !! x
    = resolved_by (matches_of iso (Publish.id self) (items db))
        <$> items db !! x.
Proof.
  intros Honly Hempty Hc HlC Hlink Hsplit Hpre.
  rewrite Forall_forall in Hpre.
  pose proof (NoDup_query_ln_items (Publish.id self) (items db)) as Hnd.
  rewrite Hsplit in Hnd.
  destruct (for_ln_items_raises
              (matches_of iso (Publish.id self) (items db))
              pre c post (items db) C Hnd Hpre Hc)
    as (rows' & Hrun & _ & Hrows).
  { apply not_resolves_iff. fold (target iso self db C).
    rewrite (target_of_only iso self db B C); try done.
    by eapply list_elem_of_lookup_2. }
  rewrite resolve_links_unfold, Hsplit, Hrun. simpl.
  split; [done |]. split.
  - rewrite Hrows, decide_False; [done |].
    apply NoDup_app in Hnd as (_ & Hdisj & _).
    intros Hin. apply (Hdisj c Hin). left.
  - intros x Hx. by rewrite Hrows, decide_True.
Qed.

Lemma chained_link_is_not_resolved_witness :
  let C := item "p" "/c" None None (Some "/b") in
  (resolve_links true (publish "p") sample_chain_unresolved).2
  = Raised (unresolved_link C) ∧
  items (resolve_links true (publish "p") sample_chain_unresolved).1 !! 2
  = Some C ∧
  ∀ x, x ∈ [1] →
    items (resolve_links true (publish "p") sample_chain_unresolved).1 !! x
    = resolved_by (matches_of true "p" (items sample_chain_unresolved))
        <$> items sample_chain_unresolved !! x.
Proof.
  intros C.
  apply (chained_link_is_not_resolved
           true (publish "p") sample_chain_unresolved
           (item "p" "/b" None None (Some "/a")) 2 C [1] []).
  - reflexivity.
  - left. reflexivity.
  - reflexivity.
  - split; [reflexivity | vm_compute; discriminate].
  - reflexivity.
  - reflexivity.
  - apply (bool_decide_unpack _). vm_compute. exact I.
Defined.

(** ** A second call *)



Section second_call.
Context (iso : bool) (self : Publish.t) (db : Session).

Let self_id := Publish.id self.
Let matches := matches_of iso self_id (items db).
Let g := resolve_item matches self_id.



Lemma resolve_item_idemp it : g (g it) = g it.
Proof.
  unfold g, resolve_item. destruct (decide (linked_in self_id it)) as [Hl|Hl].
  - rewrite decide_True by (by apply resolved_by_linked_in).
    apply resolved_by_idemp.
  - by rewrite decide_False.
Qed.






End second_call.


Section twice.
Context (iso : bool) (self : Publish.t) (db : Session).
Context (Hall : all_resolve iso self db).

Let self_id := Publish.id self.
Let matches := matches_of iso self_id (items db).
Let g := resolve_item matches self_id.


End twice.

(** * Further properties of the resolver *)

(** ** The loop is one pass over the rows *)

Lemma filter_fmap {A B} (P : B → Prop) `{∀ y, Decision (P y)}
    (f : A → B) (l : list A) :
  filter P (f <$> l) = f <$> filter (λ x, P (f x)) l.
Proof.
  induction l as [|x l IH]; [done |].
  rewrite fmap_cons. destruct (decide (P (f x))) as [Hx|Hx].
  - rewrite (filter_cons_True P (f x)) by done.
    rewrite (filter_cons_True (λ x, P (f x)) x) by done. by rewrite IH.
  - rewrite (filter_cons_False P (f x)) by done.
    by rewrite (filter_cons_False (λ x, P (f x)) x) by done.
Qed.

Lemma query_ln_items_cons self_id it rows :
  query_ln_items self_id (it :: rows)
  = (if decide (linked_in self_id it) then [0] else [])
    ++ (S <$> query_ln_items self_id rows).
Proof.
  unfold query_ln_items. simpl length.
  change (seq 0 (S (length rows))) with (0 :: seq 1 (length rows)).
  rewrite <- fmap_S_seq.
  destruct (decide (linked_in self_id it)) as [Hl|Hl].
  - rewrite filter_cons_True by done. by rewrite filter_fmap.
  - rewrite filter_cons_False by done. by rewrite filter_fmap.
Qed.

Lemma for_ln_items_rows_pass matches self_id rows done_ :
  for_ln_items matches
    ((λ i, length done_ + i) <$> query_ln_items self_id rows) (done_ ++ rows)
  = (done_ ++ (resolve_rows matches self_id rows).1,
     (resolve_rows matches self_id rows).2).
Proof.
  revert done_. induction rows as [|it rows IH]; intros done_.
  { simpl. by rewrite app_nil_r. }
  rewrite query_ln_items_cons, fmap_app, <- list_fmap_compose.
  assert (∀ x : Item.t,
            (λ i, length done_ + i) ∘ S <$> query_ln_items self_id rows
            = (λ i, length (done_ ++ [x]) + i) <$> query_ln_items self_id rows)
    as Hidx.
  { intros x. apply list_fmap_ext. intros _ i _. simpl.
    rewrite length_app. simpl. lia. }
  assert (∀ x : Item.t,
            for_ln_items matches
              ((λ i, length (done_ ++ [x]) + i) <$> query_ln_items self_id rows)
              (done_ ++ x :: rows)
            = (done_ ++ x :: (resolve_rows matches self_id rows).1,
               (resolve_rows matches self_id rows).2)) as Hrest.
  { intros x. pose proof (IH (done_ ++ [x])) as IHx.
    by rewrite <- !app_assoc in IHx. }
  simpl resolve_rows.
  destruct (decide (linked_in self_id it)) as [Hl|Hl]; simpl.
  - rewrite Nat.add_0_r, list_lookup_middle by done.
    destruct (cannot_resolve (matches_get matches (Item.link_to it))) eqn:Hc;
      [done |].
    rewrite <- (Nat.add_0_r (length done_)) at 1. rewrite insert_app_r. simpl.
    by rewrite (Hidx (assign (matches_get matches (Item.link_to it)) it)), Hrest.
  - by rewrite (Hidx it), Hrest.
Qed.

Lemma resolve_links_rows_pass iso self db :
  resolve_links iso self db
  = (with_items
       (resolve_rows (matches_of iso (Publish.id self) (items db))
                     (Publish.id self) (items db)).1 db,
     (resolve_rows (matches_of iso (Publish.id self) (items db))
                   (Publish.id self) (items db)).2).
Proof.
  rewrite resolve_links_unfold.
  pose proof (for_ln_items_rows_pass
                (matches_of iso (Publish.id self) (items db))
                (Publish.id self) (items db) []) as Hpass.
  simpl in Hpass. rewrite list_fmap_id in Hpass. by rewrite Hpass.
Qed.

Section rows_pass.
Context (matches : gmap string MatchDict) (self_id : string).

Lemma resolve_rows_returns rows :
  Forall (λ it, linked_in self_id it → resolves matches it) rows →
  resolve_rows matches self_id rows
  = (resolve_item matches self_id <$> rows, Returned).
Proof.
  induction 1 as [|it rows Hit _ IH]; [done |].
  simpl. unfold resolve_item at 1.
  destruct (decide (linked_in self_id it)) as [Hl|Hl].
  - specialize (Hit Hl). unfold resolves in Hit. by rewrite Hit, IH.
  - by rewrite IH.
Qed.

Lemma resolve_rows_raises before it after_ :
  Forall (λ it, linked_in self_id it → resolves matches it) before →
  linked_in self_id it →
  ¬ resolves matches it →
  resolve_rows matches self_id (before ++ it :: after_)
  = ((resolve_item matches self_id <$> before) ++ it :: after_,
     Raised (unresolved_link it)).
Proof.
  intros Hbefore Hl Hno. induction Hbefore as [|x before Hx _ IH].
  { simpl. rewrite decide_True by done.
    unfold resolves in Hno. by rewrite (not_false_is_true _ Hno). }
  simpl. unfold resolve_item at 1.
  destruct (decide (linked_in self_id x)) as [Hlx|Hlx].
  - specialize (Hx Hlx). unfold resolves in Hx. by rewrite Hx, IH.
  - by rewrite IH.
Qed.

Lemma resolve_rows_outcome rows :
  (resolve_rows matches self_id rows).2
  = match list_find (λ it, linked_in self_id it ∧
                           no_usable_entry
                             (matches_get matches (Item.link_to it))) rows with
    | Some (_, it) => Raised (unresolved_link it)
    | None => Returned
    end.
Proof.
  induction rows as [|it rows IH]; [done |]. simpl.
  destruct (decide (linked_in self_id it)) as [Hl|Hl].
  - destruct (cannot_resolve (matches_get matches (Item.link_to it))) eqn:Hc.
    + rewrite decide_True; [done |]. split; [done |].
      by apply cannot_resolve_true.
    + rewrite decide_False.
      2:{ intros [_ Hn%cannot_resolve_true]. congruence. }
      simpl. rewrite IH. by destruct (list_find _ rows) as [[? ?]|].
  - rewrite decide_False by (by intros [? _]).
    simpl. rewrite IH. by destruct (list_find _ rows) as [[? ?]|].
Qed.

(** The pass over the items of the publish alone. *)
Lemma resolve_rows_own rows :
  resolve_rows matches self_id (own_items self_id rows)
  = (own_items self_id (resolve_rows matches self_id rows).1,
     (resolve_rows matches self_id rows).2).
Proof.
  unfold own_items. induction rows as [|it rows IH]; [done |].
  simpl resolve_rows at 2 3.
  destruct (decide (linked_in self_id it)) as [Hl|Hl].
  - rewrite (filter_cons_True _ it) by apply Hl. simpl.
    rewrite decide_True by done.
    destruct (cannot_resolve (matches_get matches (Item.link_to it))); simpl.
    + by rewrite (filter_cons_True _ it) by apply Hl.
    + rewrite (filter_cons_True _ (resolved_by matches it)).
      2:{ destruct it. apply Hl. }
      by rewrite IH.
  - simpl. destruct (decide (Item.publish_id it = self_id)) as [Ho|Ho].
    + rewrite !(filter_cons_True _ it) by done. simpl.
      rewrite decide_False by done. by rewrite IH.
    + rewrite !(filter_cons_False _ it) by done. by rewrite IH.
Qed.
End rows_pass.

Lemma not_blocks_iff iso self db it :
  ¬ blocks iso self db it ↔
  (linked_in (Publish.id self) it →
   resolves (matches_of iso (Publish.id self) (items db)) it).
Proof.
  unfold blocks, target. rewrite <- not_resolves_iff. split.
  - intros Hnb Hl.
    destruct (decide (resolves (matches_of iso (Publish.id self) (items db)) it));
      [done |]. by destruct Hnb.
  - intros Hres [Hl Hno]. by apply Hno, Hres.
Qed.

(** X1. No rollback, no look-ahead: when the table reads [before], then a
    linked item [it] of the publish without usable entry, then [after_],
    and no row of [before] is such an item, the call raises for [it] and
    leaves the session with the linked items of [before] resolved, and
    [it] and [after_] as they were. *)
Theorem raise_keeps_assignments_made_before iso self db before it after_ :
  items db = before ++ it :: after_ →
  Forall (λ x, ¬ blocks iso self db x) before →
  blocks iso self db it →
  resolve_links iso self db
  = (with_items
       ((resolve_item (matches_of iso (Publish.id self) (items db))
                      (Publish.id self) <$> before) ++ it :: after_) db,
     Raised (unresolved_link it)).
Proof.
  intros Hrows Hbefore [Hl Hno].
  rewrite resolve_links_rows_pass. rewrite Hrows at 2 4.
  rewrite resolve_rows_raises; [done | | done |].
  - eapply Forall_impl; [exact Hbefore |]. intros x Hx.
    by apply not_blocks_iff.
  - by apply not_resolves_iff.
Qed.

Lemma raise_keeps_assignments_made_before_witness :
  resolve_links true (publish "p") sample_missing_last
  = (mkSession [publish "p"]
       [item "p" "/a" (Some "k1") (Some "t1") None;
        item "p" "/b" (Some "k1") (Some "t1") (Some "/a");
        item "p" "/c" None None (Some "/missing")],
     Raised (unresolved_link (item "p" "/c" None None (Some "/missing")))).
Proof.
  apply (raise_keeps_assignments_made_before
           true (publish "p") sample_missing_last
           [item "p" "/a" (Some "k1") (Some "t1") None;
            item "p" "/b" None None (Some "/a")]
           (item "p" "/c" None None (Some "/missing")) []).
  - reflexivity.
  - apply (bool_decide_unpack _). vm_compute. exact I.
  - apply (bool_decide_unpack _). vm_compute. exact I.
Defined.

(** X2. The outcome of [resolve_links] is decided by the first row of the
    table, in its order, that is a linked item of the publish without
    usable entry: the call raises the exception of that row, and returns
    when there is no such row. *)
Theorem outcome_is_first_blocking_row iso self db :
  (resolve_links iso self db).2
  = match list_find (blocks iso self db) (items db) with
    | Some (_, it) => Raised (unresolved_link it)
    | None => Returned
    end.
Proof.
  rewrite resolve_links_rows_pass. simpl.
  apply (resolve_rows_outcome (matches_of iso (Publish.id self) (items db))
           (Publish.id self) (items db)).
Qed.

(** X3. [resolve_links] keeps the number of rows, and never modifies an
    item of another publish, linked or not, in either scope, whether it
    returns or raises. *)
Theorem items_of_other_publishes_never_modified iso self db x it :
  items db !! x = Some it →
  Item.publish_id it ≠ Publish.id self →
  length (items (resolve_links iso self db).1) = length (items db) ∧
  items (resolve_links iso self db).1 !! x = Some it.
Proof.
  intros Hx Hother. split; [apply resolve_links_length |].
  destruct (resolve_links_rows iso self db x it Hx)
    as (it' & Hit' & [->|((Hp & _) & _)]); done.
Qed.

Lemma items_of_other_publishes_never_modified_witness :
  length (items (resolve_links false (publish "p") sample_shadowed).1) = 3 ∧
  items (resolve_links false (publish "p") sample_shadowed).1 !! 2
  = Some (item "q" "/a" (Some "k2") (Some "t2") None).
Proof.
  apply (items_of_other_publishes_never_modified
           false (publish "p") sample_shadowed 2).
  - reflexivity.
  - vm_compute. discriminate.
Defined.

(** X4. Whatever [resolve_links] writes comes from the table as it was
    before the call: a row that differs after the call was a linked item
    of the publish, and its new object key and content type are non-empty
    and are those that some item within the scope, whose URI is the
    [link_to] of the row, had before the call. *)
Theorem written_attributes_come_from_a_row_in_scope iso self db x it it' :
  items db !! x = Some it →
  items (resolve_links iso self db).1 !! x = Some it' →
  it' ≠ it →
  linked_in (Publish.id self) it ∧
  ¬ empty (Item.object_key it') ∧
  ¬ empty (Item.content_type it') ∧
  ∃ row, row ∈ items db ∧ in_scope iso (Publish.id self) row ∧
         Item.link_to it = Some (Item.web_uri row) ∧
         Item.object_key it' = Item.object_key row ∧
         Item.content_type it' = Item.content_type row.
Proof.
  intros Hx Hx' Hne.
  destruct (resolve_links_rows iso self db x it Hx)
    as (it0 & Hit0 & Hcase).
  assert (it0 = it') as -> by congruence.
  destruct Hcase as [->|(Hl & Hres & ->)]; [done |].
  split; [done |]. unfold resolves in Hres. unfold resolved_by.
  fold (target iso self db it) in *.
  destruct (target iso self db it) as [m|] eqn:Hm; [| done].
  simpl in Hres. apply orb_false_iff in Hres as [Hk Ht].
  apply negb_false_iff in Hk, Ht.
  apply target_Some in Hm as (row & Hrow & Hsc & Hlink & ->).
  simpl in *. destruct it; simpl in *.
  split; [rewrite <- truthy_false; congruence |].
  split; [rewrite <- truthy_false; congruence |].
  exists row. done.
Qed.

Lemma written_attributes_come_from_a_row_in_scope_witness :
  let B := item "p" "/b" None None (Some "/a") in
  let B' := item "p" "/b" (Some "k2") (Some "t2") (Some "/a") in
  linked_in "p" B ∧
  ¬ empty (Item.object_key B') ∧
  ¬ empty (Item.content_type B') ∧
  ∃ row, row ∈ items sample_shadowed ∧ in_scope false "p" row ∧
         Item.link_to B = Some (Item.web_uri row) ∧
         Item.object_key B' = Item.object_key row ∧
         Item.content_type B' = Item.content_type row.
Proof.
  intros B B'.
  apply (written_attributes_come_from_a_row_in_scope
           false (publish "p") sample_shadowed 1 B B').
  - reflexivity.
  - vm_compute. reflexivity.
  - vm_compute. discriminate.
Defined.

(** X5. Last writer wins: when several items within the scope share the
    URI a link names, the entry of the link holds the attributes of the
    one that comes last in the table, and a call that resolves every link
    gives those to the linked item. *)
Theorem last_row_in_scope_wins iso self db a A b B :
  items db !! a = Some A →
  in_scope iso (Publish.id self) A →
  rows_in_scope_with iso (Publish.id self) (Item.web_uri A)
    (drop (S a) (items db)) = [] →
  items db !! b = Some B →
  linked_in (Publish.id self) B →
  Item.link_to B = Some (Item.web_uri A) →
  all_resolve iso self db →
  target iso self db B
  = Some (mkMatch (Item.object_key A) (Item.content_type A)) ∧
  (resolve_links iso self db).2 = Returned ∧
  items (resolve_links iso self db).1 !! b = Some (with_attributes_of A B).
Proof.
  intros Ha Hsc Hlast Hb Hl Hlink Hall.
  assert (target iso self db B
          = Some (mkMatch (Item.object_key A) (Item.content_type A))) as Ht.
  { unfold target. rewrite Hlink. simpl.
    apply (matches_of_last iso (Publish.id self) (items db) a A); try done.
    - exists B. split; [by eapply list_elem_of_lookup_2 | done].
    - intros j it Hj Hscj Hu.
      destruct (decide (j ≤ a)) as [|Hgt]; [done |].
      assert (it ∈ drop (S a) (items db)) as Hin.
      { apply list_elem_of_lookup. exists (j - S a).
        rewrite lookup_drop. by replace (S a + (j - S a)) with j by lia. }
      unfold rows_in_scope_with in Hlast.
      by destruct (filter_nil_not_elem_of _ _ it Hlast). }
  split; [done |].
  destruct (resolve_links_returns iso self db Hall) as [Hout Hrows].
  split; [done |].
  rewrite (Hrows b B Hb), decide_True by done. f_equal.
  unfold resolved_by. fold (target iso self db B). by rewrite Ht.
Qed.

Lemma last_row_in_scope_wins_witness :
  let A := item "q" "/a" (Some "k2") (Some "t2") None in
  let B := item "p" "/b" None None (Some "/a") in
  target false (publish "p") sample_shadowed B
  = Some (mkMatch (Some "k2") (Some "t2")) ∧
  (resolve_links false (publish "p") sample_shadowed).2 = Returned ∧
  items (resolve_links false (publish "p") sample_shadowed).1 !! 1
  = Some (with_attributes_of A B).
Proof.
  intros A B.
  apply (last_row_in_scope_wins false (publish "p") sample_shadowed 2 A 1 B).
  - reflexivity.
  - exact I.
  - reflexivity.
  - reflexivity.
  - split; [reflexivity | vm_compute; discriminate].
  - reflexivity.
  - apply (bool_decide_unpack _). vm_compute. exact I.
Defined.

Lemma ln_item_paths_own self_id rows link :
  link ∈ ln_item_paths_of (own_items self_id rows)
           (query_ln_items self_id (own_items self_id rows)) ↔
  link ∈ ln_item_paths_of rows (query_ln_items self_id rows).
Proof.
  rewrite !elem_of_ln_item_paths. unfold own_items.
  split; intros (it & Hin & Hl & Hlink); exists it.
  - apply list_elem_of_filter in Hin as [_ Hin]. done.
  - split; [| done]. apply list_elem_of_filter. split; [apply Hl | done].
Qed.

(** In isolated mode the mapping is built from the items of the publish. *)
Lemma matches_of_own self_id rows :
  matches_of true self_id (own_items self_id rows)
  = matches_of true self_id rows.
Proof.
  unfold matches_of. rewrite !run_query_filter. f_equal. f_equal.
  set (paths' := ln_item_paths_of (own_items self_id rows) _).
  set (paths := ln_item_paths_of rows _).
  unfold own_items. rewrite list_filter_filter.
  apply list_filter_iff. intros it. simpl. subst paths' paths.
  rewrite ln_item_paths_own.
  split; [by intros [? _] | intros [Hsc ?]; split; [done | exact Hsc]].
Qed.

(** X6. In isolated mode the items of the other publishes have no part in
    the call: on the table reduced to the items of the publish,
    [resolve_links] ends the same way, and leaves the items of the publish
    as the call on the whole table leaves them. *)
Theorem isolated_call_ignores_other_publishes self db :
  let own := with_items (own_items (Publish.id self) (items db)) db in
  (resolve_links true self own).2 = (resolve_links true self db).2 ∧
  items (resolve_links true self own).1
  = own_items (Publish.id self) (items (resolve_links true self db).1).
Proof.
  intros own. rewrite !resolve_links_rows_pass. simpl.
  rewrite matches_of_own, resolve_rows_own. done.
Qed.

Lemma filter_ext_elem {A} (P Q : A → Prop)
    `{∀ x, Decision (P x)} `{∀ x, Decision (Q x)} (l : list A) :
  (∀ x, x ∈ l → P x ↔ Q x) → filter P l = filter Q l.
Proof.
  induction l as [|x l IH]; intros HPQ; [done |].
  assert (filter P l = filter Q l) as IH'.
  { apply IH. intros y Hy. apply HPQ. by right. }
  destruct (decide (P x)) as [Hx|Hx].
  - rewrite (filter_cons_True P x), (filter_cons_True Q x), IH'; try done.
    apply HPQ; [left | done].
  - rewrite (filter_cons_False P x), (filter_cons_False Q x), IH'; try done.
    intros HQ. apply Hx, HPQ; [left | done].
Qed.

(** X7. The two scopes differ only through URIs that exist in another
    publish: when every item whose URI a link of the publish names
    belongs to the publish, [resolve_links] does the same with
    [LINK_ISOLATION] unset as with it set. *)
Theorem scopes_agree_without_foreign_targets self db :
  no_foreign_targets (Publish.id self) (items db) →
  resolve_links false self db = resolve_links true self db.
Proof.
  intros Hno. unfold no_foreign_targets in Hno. rewrite Forall_forall in Hno.
  assert (matches_of false (Publish.id self) (items db)
          = matches_of true (Publish.id self) (items db)) as Hm.
  { unfold matches_of. rewrite !run_query_filter. f_equal. f_equal.
    apply filter_ext_elem. intros row Hrow. simpl.
    split; [| by intros [_ ?]]. intros [_ Hpath]. split; [| done].
    pose proof Hpath as (it & Hin & Hl & Hlink)%elem_of_ln_item_paths.
    specialize (Hno row Hrow). rewrite Forall_forall in Hno.
    by apply (Hno it). }
  unfold resolve_links. by rewrite Hm.
Qed.

Lemma scopes_agree_without_foreign_targets_witness :
  resolve_links false (publish "p") sample_chain_unresolved
  = resolve_links true (publish "p") sample_chain_unresolved.
Proof.
  apply (scopes_agree_without_foreign_targets
           (publish "p") sample_chain_unresolved).
  apply (bool_decide_unpack _). vm_compute. exact I.
Defined.

(** X8. Isolation is switched off exactly by a value of
    [EXODUS_GW_LINK_ISOLATION] that is neither empty nor ["1"]; every
    other environment, whatever else it holds, leaves it on. *)
Theorem link_isolation_off_iff env :
  link_isolation_setting env = false ↔
  ∃ v, env !! "EXODUS_GW_LINK_ISOLATION" = Some v ∧ v ≠ "" ∧ v ≠ "1".
Proof.
  unfold link_isolation_setting, py_or.
  destruct (env !! "EXODUS_GW_LINK_ISOLATION") as [v|].
  - destruct (String.eqb v "") eqn:Hv.
    + apply String.eqb_eq in Hv as ->. split; [done |].
      by intros (v & [= <-] & Hne & _).
    + apply String.eqb_neq in Hv. rewrite String.eqb_neq. split.
      * intros Hne. exists v. done.
      * by intros (v' & [= <-] & _ & Hne).
  - split; [done |]. by intros (v & ? & _).
Qed.

(** X9. An item linked to its own URI, the only one in scope with that
    URI, is left as it is by [resolve_links], whether the call returns or
    raises: what it would be given are its own attributes. *)
Theorem self_link_leaves_item_unchanged iso self db b B :
  items db !! b = Some B →
  linked_in (Publish.id self) B →
  Item.link_to B = Some (Item.web_uri B) →
  rows_in_scope_with iso (Publish.id self) (Item.web_uri B) (items db) = [B] →
  items (resolve_links iso self db).1 !! b = Some B.
Proof.
  intros Hb Hl Hlink Honly.
  destruct (resolve_links_rows iso self db b B Hb)
    as (B' & HB' & [->|(_ & _ & ->)]); [done |].
  rewrite HB'. f_equal. unfold resolved_by. fold (target iso self db B).
  rewrite (target_of_only iso self db B B); try done.
  - by destruct B.
  - by eapply list_elem_of_lookup_2.
Qed.

Lemma self_link_leaves_item_unchanged_witness :
  items (resolve_links true (publish "p") sample_self_link).1 !! 0
  = Some (item "p" "/a" (Some "k1") (Some "t1") (Some "/a")).
Proof.
  apply (self_link_leaves_item_unchanged true (publish "p") sample_self_link 0).
  - reflexivity.
  - split; [reflexivity | vm_compute; discriminate].
  - reflexivity.
  - reflexivity.
Defined.

(** X10. Two items linked to each other exchange their attributes: each
    is the only item in scope with its URI, every link resolves, and
    after the call each holds the object key and the content type the
    other had before it. *)
Theorem mutual_links_exchange_attributes iso self db a A b B :
  items db !! a = Some A →
  items db !! b = Some B →
  linked_in (Publish.id self) A →
  linked_in (Publish.id self) B →
  Item.link_to A = Some (Item.web_uri B) →
  Item.link_to B = Some (Item.web_uri A) →
  rows_in_scope_with iso (Publish.id self) (Item.web_uri A) (items db) = [A] →
  rows_in_scope_with iso (Publish.id self) (Item.web_uri B) (items db) = [B] →
  all_resolve iso self db →
  (resolve_links iso self db).2 = Returned ∧
  items (resolve_links iso self db).1 !! a = Some (with_attributes_of B A) ∧
  items (resolve_links iso self db).1 !! b = Some (with_attributes_of A B).
Proof.
  intros Ha Hb HlA HlB HlinkA HlinkB HonlyA HonlyB Hall.
  destruct (resolve_links_returns iso self db Hall) as [Hout Hrows].
  split; [done |]. split.
  - rewrite (Hrows a A Ha), decide_True by done. f_equal.
    unfold resolved_by. fold (target iso self db A).
    rewrite (target_of_only iso self db B A); try done.
    by eapply list_elem_of_lookup_2.
  - rewrite (Hrows b B Hb), decide_True by done. f_equal.
    unfold resolved_by. fold (target iso self db B).
    rewrite (target_of_only iso self db A B); try done.
    by eapply list_elem_of_lookup_2.
Qed.

Lemma mutual_links_exchange_attributes_witness :
  (resolve_links true (publish "p") sample_mutual).2 = Returned ∧
  items (resolve_links true (publish "p") sample_mutual).1 !! 0
  = Some (item "p" "/a" (Some "k2") (Some "t2") (Some "/b")) ∧
  items (resolve_links true (publish "p") sample_mutual).1 !! 1
  = Some (item "p" "/b" (Some "k1") (Some "t1") (Some "/a")).
Proof.
  apply (mutual_links_exchange_attributes
           true (publish "p") sample_mutual
           0 (item "p" "/a" (Some "k1") (Some "t1") (Some "/b"))
           1 (item "p" "/b" (Some "k2") (Some "t2") (Some "/a"))).
  - reflexivity.
  - reflexivity.
  - split; [reflexivity | vm_compute; discriminate].
  - split; [reflexivity | vm_compute; discriminate].
  - reflexivity.
  - reflexivity.
  - reflexivity.
  - reflexivity.
  - apply (bool_decide_unpack _). vm_compute. exact I.
Defined.

(** ** The columns the resolver reads *)

Lemma same_content_elem rows1 rows2 it1 :
  Forall2 same_content rows1 rows2 →
  it1 ∈ rows1 →
  ∃ it2, it2 ∈ rows2 ∧ same_content it1 it2.
Proof.
  intros Hsc [i Hi]%list_elem_of_lookup_1.
  destruct (Forall2_lookup_l _ _ _ _ _ Hsc Hi) as (it2 & H2 & Hrel).
  exists it2. split; [by eapply list_elem_of_lookup_2 | done].
Qed.

Lemma same_content_sym it1 it2 : same_content it1 it2 → same_content it2 it1.
Proof. intros (? & ? & ? & ? & ?). by repeat split. Qed.

Lemma same_content_linked_in self_id it1 it2 :
  same_content it1 it2 → linked_in self_id it1 ↔ linked_in self_id it2.
Proof. intros (_ & _ & _ & Hl & Hp). unfold linked_in. by rewrite Hl, Hp. Qed.

Lemma same_content_paths self_id rows1 rows2 link :
  Forall2 same_content rows1 rows2 →
  link ∈ ln_item_paths_of rows1 (query_ln_items self_id rows1) →
  link ∈ ln_item_paths_of rows2 (query_ln_items self_id rows2).
Proof.
  intros Hsc (it1 & Hin & Hl & Hlink)%elem_of_ln_item_paths.
  destruct (same_content_elem _ _ _ Hsc Hin) as (it2 & Hin2 & Hrel).
  apply elem_of_ln_item_paths. exists it2. split; [done |].
  split; [by apply (same_content_linked_in self_id it1 it2) |].
  destruct Hrel as (_ & _ & _ & <- & _). done.
Qed.

Lemma same_content_filter (Q1 Q2 : Item.t → Prop)
    `{∀ x, Decision (Q1 x)} `{∀ x, Decision (Q2 x)} rows1 rows2 :
  Forall2 same_content rows1 rows2 →
  (∀ x y, same_content x y → Q1 x ↔ Q2 y) →
  bundle_of <$> filter Q1 rows1 = bundle_of <$> filter Q2 rows2.
Proof.
  intros Hsc HQ. induction Hsc as [|x y l1 l2 Hxy _ IH]; [done |].
  destruct (decide (Q1 x)) as [Hx|Hx].
  - rewrite (filter_cons_True Q1 x) by done.
    rewrite (filter_cons_True Q2 y) by (by apply (HQ x y)).
    rewrite !fmap_cons, IH. f_equal.
    destruct Hxy as (Hu & Hk & Ht & _). unfold bundle_of. by rewrite Hu, Hk, Ht.
  - rewrite (filter_cons_False Q1 x) by done.
    rewrite (filter_cons_False Q2 y); [done |].
    intros Hy. by apply Hx, (HQ x y).
Qed.

Lemma same_content_matches iso self_id rows1 rows2 :
  Forall2 same_content rows1 rows2 →
  matches_of iso self_id rows1 = matches_of iso self_id rows2.
Proof.
  intros Hsc. unfold matches_of. rewrite !run_query_filter. f_equal.
  apply same_content_filter; [done |].
  intros x y Hxy. destruct Hxy as (Hu & _ & _ & _ & Hp).
  rewrite Hu. unfold in_scope. rewrite Hp.
  split; intros [Hs Hpath]; (split; [done |]).
  - by apply (same_content_paths self_id rows1 rows2).
  - apply (same_content_paths self_id rows2 rows1); [| done].
    apply Forall2_flip. eapply Forall2_impl; [exact Hsc |].
    intros ? ?. apply same_content_sym.
Qed.

Lemma same_content_resolve_rows matches self_id rows1 rows2 :
  Forall2 same_content rows1 rows2 →
  (resolve_rows matches self_id rows1).2
  = (resolve_rows matches self_id rows2).2 ∧
  Forall2 same_content (resolve_rows matches self_id rows1).1
                       (resolve_rows matches self_id rows2).1.
Proof.
  induction 1 as [|x y l1 l2 Hxy Hl [IHo IHr]]; [by split |].
  simpl. pose proof (same_content_linked_in self_id x y Hxy) as Hlk.
  pose proof Hxy as (Hu & _ & _ & Hlink & _).
  destruct (decide (linked_in self_id x)) as [Hx|Hx].
  - rewrite decide_True by (by apply Hlk). rewrite <- Hlink.
    destruct (cannot_resolve (matches_get matches (Item.link_to x))); simpl.
    + split; [| by constructor].
      unfold unresolved_link. by rewrite Hu, Hlink.
    + split; [done |]. constructor; [| done].
      unfold resolved_by. rewrite <- Hlink.
      destruct Hxy as (? & ? & ? & ? & ?). by destruct x, y.
  - rewrite decide_False by (by rewrite <- Hlk). simpl.
    split; [done |]. by constructor.
Qed.

(** X11. [resolve_links] reads of an item only [web_uri], [object_key],
    [content_type], [link_to] and [publish_id]: on two tables whose rows
    agree on these columns, whatever their [id], [dirty] and [updated]
    are, the call ends the same way and leaves rows that agree on these
    columns again. *)
Theorem resolution_reads_five_columns iso self db1 db2 :
  Forall2 same_content (items db1) (items db2) →
  (resolve_links iso self db1).2 = (resolve_links iso self db2).2 ∧
  Forall2 same_content (items (resolve_links iso self db1).1)
                       (items (resolve_links iso self db2).1).
Proof.
  intros Hsc. rewrite !resolve_links_rows_pass. simpl.
  rewrite (same_content_matches iso (Publish.id self) _ _ Hsc).
  by apply same_content_resolve_rows.
Qed.

Lemma resolution_reads_five_columns_witness :
  (resolve_links true (publish "p") sample_basic).2
  = (resolve_links true (publish "p") sample_basic_later).2 ∧
  Forall2 same_content
    (items (resolve_links true (publish "p") sample_basic).1)
    (items (resolve_links true (publish "p") sample_basic_later).1).
Proof.
  apply (resolution_reads_five_columns
           true (publish "p") sample_basic sample_basic_later).
  apply (bool_decide_unpack _). vm_compute. exact I.
Defined.

Lemma resolve_rows_set_updated matches self_id utcnow rows :
  resolve_rows matches self_id (Item.set_updated utcnow <$> rows)
  = (Item.set_updated utcnow <$> (resolve_rows matches self_id rows).1,
     (resolve_rows matches self_id rows).2).
Proof.
  induction rows as [|it rows IH]; [done |].
  rewrite fmap_cons. simpl resolve_rows.
  destruct (decide (linked_in self_id it)) as [Hl|Hl].
  - rewrite decide_True by (by destruct it).
    replace (Item.link_to (Item.set_updated utcnow it)) with (Item.link_to it)
      by (by destruct it).
    destruct (cannot_resolve (matches_get matches (Item.link_to it))); simpl.
    + by destruct it.
    + rewrite IH. simpl. by destruct it.
  - rewrite decide_False by (by destruct it). by rewrite IH.
Qed.

(** X12. Resolution and the listener [set_updated] commute: stamping
    every item with the time of an update and then calling
    [resolve_links] ends as the call on the unstamped table does, and
    leaves the table the call leaves, stamped. *)
Theorem resolve_links_commutes_with_set_updated iso self db utcnow :
  resolve_links iso self
    (with_items (Item.set_updated utcnow <$> items db) db)
  = (with_items
       (Item.set_updated utcnow <$> items (resolve_links iso self db).1) db,
     (resolve_links iso self db).2).
Proof.
  rewrite !resolve_links_rows_pass. simpl.
  rewrite (same_content_matches iso (Publish.id self)
             (Item.set_updated utcnow <$> items db) (items db)).
  2:{ apply Forall2_fmap_l, Forall_Forall2_diag, Forall_forall.
      intros it _. by destruct it. }
  by rewrite resolve_rows_set_updated.
Qed.

(** X13. A publish without linked item: when no row of the table is an
    item of the publish with a non-empty [link_to], [resolve_links]
    returns and leaves the session as it is, in either scope. *)
Theorem without_links_nothing_changes iso self db :
  Forall (λ it, ¬ linked_in (Publish.id self) it) (items db) →
  resolve_links iso self db = (db, Returned).
Proof.
  intros Hnone. rewrite resolve_links_rows_pass.
  rewrite resolve_rows_returns.
  2:{ eapply Forall_impl; [exact Hnone |]. by intros it Hn Hl. }
  simpl. destruct db as [ps rows]. unfold with_items. simpl. f_equal. f_equal.
  simpl in Hnone. rewrite Forall_forall in Hnone.
  apply list_eq. intros i. rewrite list_lookup_fmap.
  destruct (rows !! i) as [it|] eqn:Hi; [| done]. simpl. f_equal.
  unfold resolve_item. rewrite decide_False; [done |].
  by apply Hnone, (list_elem_of_lookup_2 _ i).
Qed.

Lemma without_links_nothing_changes_witness :
  resolve_links true (publish "p") sample_plain = (sample_plain, Returned).
Proof.
  apply (without_links_nothing_changes true (publish "p") sample_plain).
  apply (bool_decide_unpack _). vm_compute. exact I.
Defined.

(** * The entry of a link, read off the table *)

Lemma build_matches_lookup query u :
  build_matches query !! u
  = (λ b, mkMatch (b_object_key b) (b_content_type b))
      <$> last (filter (λ b, b_web_uri b = u) query).
Proof.
  unfold build_matches. induction query as [|b q IH] using rev_ind.
  { simpl. by rewrite lookup_empty. }
  rewrite foldl_app, filter_app. simpl.
  destruct (decide (b_web_uri b = u)) as [<-|Hne].
  - rewrite lookup_insert_eq, (filter_cons_True _ b), filter_nil by done.
    by rewrite last_snoc.
  - rewrite lookup_insert_ne, (filter_cons_False _ b), filter_nil by done.
    by rewrite app_nil_r.
Qed.

(** What the loop looks up for a linked item is made of the item the link
    is resolved against. *)
Lemma target_entry_row iso self db it :
  it ∈ items db →
  linked_in (Publish.id self) it →
  target iso self db it
  = (λ row, mkMatch (Item.object_key row) (Item.content_type row))
      <$> entry_row iso self db it.
Proof.
  intros Hin Hl. unfold target, entry_row.
  destruct (Item.link_to it) as [u|] eqn:Hlink; [| done]. simpl.
  unfold matches_of. rewrite run_query_filter, build_matches_lookup.
  rewrite filter_fmap, list_filter_filter, fmap_last, <- option_fmap_compose.
  unfold rows_in_scope_with.
  rewrite (filter_ext_elem
             (λ x, b_web_uri (bundle_of x) = u ∧
                   in_scope iso (Publish.id self) x ∧
                   Some (Item.web_uri x)
                     ∈ ln_item_paths_of (items db)
                         (query_ln_items (Publish.id self) (items db)))
             (λ x, in_scope iso (Publish.id self) x ∧ Item.web_uri x = u));
    [done |].
  intros x _. simpl. split; [by intros (? & ? & _) |].
  intros [Hsc Hu]. split; [done |]. split; [done |].
  rewrite Hu. apply elem_of_ln_item_paths. eauto.
Qed.

Lemma unresolved_in_iff iso self db it :
  it ∈ items db →
  linked_in (Publish.id self) it →
  unresolved_in iso self db it ↔ no_usable_entry (target iso self db it).
Proof.
  intros Hin Hl. rewrite (target_entry_row iso self db it Hin Hl).
  unfold unresolved_in. by destruct (entry_row iso self db it).
Qed.

(** C2. If some linked item of the publish is unresolved, that is, no item
    within the active scope has the URI of its [link_to], or the one the
    link is resolved against has an empty [object_key] or [content_type],
    then [resolve_links] raises. The exception is the one of the first
    such item [ln_item] in the order of the loop (no item before it is
    unresolved): an [HTTPException] with status 400 whose detail is the
    message made of [ln_item.web_uri] and of [ln_item.link_to]. That
    item, the linked items after it and every row but the linked items
    before it are left as they were. *)
Theorem resolve_links_raises_at_first_unresolved iso self db :
  (∃ it, it ∈ items db ∧ linked_in (Publish.id self) it ∧
         unresolved_in iso self db it) →
  ∃ pre r post ln_item link,
    query_ln_items (Publish.id self) (items db) = pre ++ r :: post ∧
    items db !! r = Some ln_item ∧
    Item.link_to ln_item = Some link ∧
    unresolved_in iso self db ln_item ∧
    (∀ x it, x ∈ pre → items db !! x = Some it →
             ¬ unresolved_in iso self db it) ∧
    (resolve_links iso self db).2
    = Raised
        (mkHTTPException 400
           ("Unable to resolve item object_key:"
            +:+ String (Ascii.ascii_of_nat 10) (String (Ascii.ascii_of_nat 9)
                  ("URI: '" +:+ Item.web_uri ln_item +:+ "'"
            +:+ String (Ascii.ascii_of_nat 10) (String (Ascii.ascii_of_nat 9)
                  ("Link: '" +:+ link +:+ "'")))))) ∧
    (∀ x, x ∈ r :: post →
          items (resolve_links iso self db).1 !! x = items db !! x) ∧
    (∀ x, x ∉ pre →
          items (resolve_links iso self db).1 !! x = items db !! x).
Proof.
  intros (it & Hin & Hl & Hno).
  destruct (raises_at_first_unusable_entry iso self db)
    as (pre & r & post & ln_item & Hsplit & Hr & Hun & Hpre & Hout & Hpost
        & Hframe).
  { exists it. split; [done |]. split; [done |]. by apply unresolved_in_iff. }
  assert (r ∈ query_ln_items (Publish.id self) (items db))
    as (ln_item' & Hr' & Hlr)%elem_of_query_ln_items.
  { rewrite Hsplit. apply elem_of_app. right. left. }
  assert (ln_item' = ln_item) as -> by congruence.
  assert (ln_item ∈ items db) as Hinr by (by eapply list_elem_of_lookup_2).
  destruct (Item.link_to ln_item) as [link|] eqn:Hlink.
  2:{ destruct Hlr as [_ Hlr]. by rewrite Hlink in Hlr. }
  exists pre, r, post, ln_item, link.
  split; [done |]. split; [done |]. split; [done |].
  split; [by apply unresolved_in_iff |]. split.
  { intros x it0 Hx H0 Hun0. apply (Hpre x it0 Hx H0).
    apply unresolved_in_iff; [by eapply list_elem_of_lookup_2 | | done].
    assert (x ∈ query_ln_items (Publish.id self) (items db))
      as (it1 & H1 & Hl1)%elem_of_query_ln_items.
    { rewrite Hsplit. apply elem_of_app. by left. }
    by assert (it1 = it0) as -> by congruence. }
  split; [| done]. rewrite Hout. reflexivity.
Qed.

Lemma resolve_links_raises_at_first_unresolved_witness :
  ∃ pre r post ln_item link,
    query_ln_items "p" (items sample_missing_last) = pre ++ r :: post ∧
    items sample_missing_last !! r = Some ln_item ∧
    Item.link_to ln_item = Some link ∧
    unresolved_in true (publish "p") sample_missing_last ln_item ∧
    (∀ x it, x ∈ pre → items sample_missing_last !! x = Some it →
             ¬ unresolved_in true (publish "p") sample_missing_last it) ∧
    (resolve_links true (publish "p") sample_missing_last).2
    = Raised
        (mkHTTPException 400
           ("Unable to resolve item object_key:"
            +:+ String (Ascii.ascii_of_nat 10) (String (Ascii.ascii_of_nat 9)
                  ("URI: '" +:+ Item.web_uri ln_item +:+ "'"
            +:+ String (Ascii.ascii_of_nat 10) (String (Ascii.ascii_of_nat 9)
                  ("Link: '" +:+ link +:+ "'")))))) ∧
    (∀ x, x ∈ r :: post →
          items (resolve_links true (publish "p") sample_missing_last).1 !! x
          = items sample_missing_last !! x) ∧
    (∀ x, x ∉ pre →
          items (resolve_links true (publish "p") sample_missing_last).1 !! x
          = items sample_missing_last !! x).
Proof.
  apply (resolve_links_raises_at_first_unresolved
           true (publish "p") sample_missing_last).
  exists (item "p" "/c" None None (Some "/missing")).
  split; [right; right; left |]. split; [by split |]. vm_compute. exact I.
Defined.

(** * Two calls in one session *)

Lemma stamp_set_updated utcnow it : stamp utcnow it = Item.set_updated utcnow it.
Proof. reflexivity. Qed.




Section twice_in_session.
Context (iso : bool) (self : Publish.t) (db : Session) (t1 t2 : datetime).
Context (Hall : all_resolve iso self db).

Let self_id := Publish.id self.
Let matches := matches_of iso self_id (items db).
Let g := resolve_item matches self_id.









End twice_in_session.




